(** * multidevice/message.go: the encrypted-message ingestion pipeline

    A shallow embedding of [src/multidevice/message.go] (package
    [multidevice] of whatsmeow): the padding codec, the message-info
    extractor, the per-unit decrypt loop, the decrypted-message
    dispatcher and the retry-receipt manager, followed by the properties
    the specification states about them.

    Conventions.
    - A Go [[]byte] is a [list Byte.byte]; [int(b)] is [Byte.to_N b].
    - A Go call that can return [(v, err)] and can also panic has a
      three-valued result [go_result].
    - Code that mutates the client ([cli]) is a function of an explicit
      client state, in the small monad [M] below.
    - What the file imports from other packages (the Signal library, the
      protobuf codec, the transport, the [binary] package) is a field of
      the capability class [Externals], or a small model marked as such.
    - [handleEncryptedMessage] only parses the message info and starts
      [decryptMessages] on a goroutine of its own; the development starts
      at [parseMessageInfo] and [decryptMessages]. *)

From Stdlib Require Import ZArith NArith List Bool Lia String Ascii.
From Stdlib Require Strings.Byte.
From stdpp Require Import base gmap strings list.

Import ListNotations.

(** ** Go results and run-time panics *)

(** The run-time panics message.go can raise. *)
Inductive panic : Type :=
| IndexOutOfRange        (* s[i] with i outside [0, len s) *)
| SliceBoundsOutOfRange  (* s[:j] with j outside [0, cap s] *)
| NilDereference         (* *p with p == nil *)
| PanicErr.              (* panic(err) *)

(** The error values message.go builds with [fmt.Errorf]; one constructor
    per format string. *)
Inductive go_error : Type :=
| ErrBadPadding            (* "plaintext doesn't have expected padding" *)
| ErrParsePreKey           (* "failed to parse prekey message: %w" *)
| ErrDecryptPreKey         (* "failed to decrypt prekey message: %w" *)
| ErrParseNormal           (* "failed to parse normal message: %w" *)
| ErrDecryptNormal         (* "failed to decrypt normal message: %w" *)
| ErrParseGroup            (* "failed to parse group message: %w" *)
| ErrDecryptGroup          (* "failed to decrypt group message: %w" *)
| ErrNoFrom                (* "didn't find valid `from` attribute in message" *)
| ErrNoParticipant         (* "didn't find valid `participant` attribute in group message" *)
| ErrNoID                  (* "didn't find valid `id` attribute in message" *)
| ErrNoTimestamp           (* "didn't find valid `t` (timestamp) attribute in message" *)
| ErrBadTimestamp.         (* "didn't find valid `t` (timestamp) attribute in message: %w" *)

(** Result of a Go function returning [(T, error)]: a value with a nil
    error, a non-nil error, or a panic that unwinds the goroutine. *)
Inductive go_result (T : Type) : Type :=
| Ok (v : T)
| Err (e : go_error)
| Panics (p : panic).
Arguments Ok {T} v.
Arguments Err {T} e.
Arguments Panics {T} p.

(** ** Byte slices *)

Abbreviation bytes := (list Byte.byte).

(** [int(b)] for a byte [b]. *)
Definition byte_int (b : Byte.byte) : Z := Z.of_N (Byte.to_N b).

(** [s[i]] for an [int] index: [None] stands for the index-out-of-range
    panic. *)
Definition index {A} (s : list A) (i : Z) : option A :=
  if (i <? 0)%Z then None else nth_error s (Z.to_nat i).

(** [s[:j]] for an [int] bound on a slice whose capacity is its length:
    [None] stands for the slice-bounds panic. *)
Definition slice_to {A} (s : list A) (j : Z) : option (list A) :=
  if ((j <? 0) || (Z.of_nat (length s) <? j))%Z then None
  else Some (firstn (Z.to_nat j) s).

(** [len(s)] as an [int]. *)
Definition len {A} (s : list A) : Z := Z.of_nat (length s).

(** [bytes.Repeat(b, count)] for [count >= 0]. *)
Definition Repeat (b : bytes) (count : Z) : bytes :=
  concat (repeat b (Z.to_nat count)).

#[global] Instance byte_eq_decision : EqDecision Byte.byte := Byte.byte_eq_dec.

(** [bytes.Equal]. *)
Definition Equal (a b : bytes) : bool := bool_decide (a = b).

(** [bytes.HasSuffix(s, suffix)]:
    [len(s) >= len(suffix) && Equal(s[len(s)-len(suffix):], suffix)]. *)
Definition HasSuffix (s suffix : bytes) : bool :=
  (len suffix <=? len s)%Z &&
  Equal (skipn (Z.to_nat (len s - len suffix)) s) suffix.

(** ** Padding codec *)

(** [unpadMessage], with the package variable [CheckPadding] as an
    argument. *)
Definition unpadMessage (CheckPadding : bool) (plaintext : bytes)
  : go_result bytes :=
  let strip :=
    match index plaintext (len plaintext - 1) with
    | None => Panics IndexOutOfRange
    | Some b =>
        match slice_to plaintext (len plaintext - byte_int b) with
        | None => Panics SliceBoundsOutOfRange
        | Some r => Ok r
        end
    end in
  if CheckPadding then
    match index plaintext (len plaintext - 1) with
    | None => Panics IndexOutOfRange
    | Some lastByte =>
        let expectedPadding := Repeat [lastByte] (byte_int lastByte) in
        if negb (HasSuffix plaintext expectedPadding)
        then Err ErrBadPadding
        else strip
    end
  else strip.

(** What [rand.Read(pad[:])] leaves behind: the byte written into
    [pad[0]], or an error. *)
Inductive rand_read : Type :=
| RandByte (b : Byte.byte)
| RandErr.

(** [pad[0] & 0xf] as an [int]. *)
Definition low4 (b : Byte.byte) : Z := Z.land (byte_int b) 15.

(** [padMessage], with the outcome of [rand.Read] as an argument.  The
    function has no error result; [Err] is never produced. *)
Definition padMessage (rnd : rand_read) (plaintext : bytes) : go_result bytes :=
  match rnd with
  | RandErr => Panics PanicErr
  | RandByte pad0 => Ok (plaintext ++ Repeat [pad0] (low4 pad0))
  end.

(** ** Protocol units (package [binary])

    The [binary] package ([Node], [FullJID], the server constants and the
    child accessors) is not among the available sources; what message.go
    uses of it is modelled here. *)

(** Modelled from the spec: [waBinary.FullJID], an address with the
    "domain" that marks a group address.  message.go reads its [User] and
    [Server] fields only. *)
Record FullJID : Type := mkJID { User : string; Server : string }.

#[global] Instance FullJID_eq_dec : EqDecision FullJID.
Proof. solve_decision. Defined.

(** [waBinary.NewJID(user, server)]. *)
Definition NewJID (user server : string) : FullJID :=
  {| User := user; Server := server |}.

(** Modelled from the spec: the values of the "string-keyed attributes"
    of a unit, a [map[string]interface{}] in message.go, as far as
    message.go distinguishes dynamic types: the nil interface, a string,
    an address, an int. *)
Inductive attr_value : Type :=
| ANil
| AString (s : string)
| AJID (j : FullJID)
| AInt (n : Z).

(** The [Content interface{}] of a node: nil, [[]byte] or [[]Node]. *)
Inductive content (N : Type) : Type :=
| CNil
| CBytes (b : bytes)
| CNodes (l : list N).
Arguments CNil {N}.
Arguments CBytes {N} b.
Arguments CNodes {N} l.

(** Modelled from the spec: [waBinary.Node], "a generic labelled-tree
    structure with attributes and either binary or child-node content". *)
#[warnings="-register-all"]
Inductive Node : Type :=
  mkNode { Tag : string; Attrs : gmap string attr_value; Content : content Node }.

(** [m[k]] in its one-result form: the stored value, or the nil
    interface when the key is absent. *)
Definition attr (m : gmap string attr_value) (k : string) : attr_value :=
  default ANil (m !! k).

(** [v, ok := m[k].(string)]. *)
Definition attr_string (m : gmap string attr_value) (k : string) : option string :=
  match m !! k with
  | Some (AString s) => Some s
  | _ => None
  end.

(** [v, ok := m[k].(waBinary.FullJID)]. *)
Definition attr_jid (m : gmap string attr_value) (k : string) : option FullJID :=
  match m !! k with
  | Some (AJID j) => Some j
  | _ => None
  end.

(** Modelled from the spec: [node.GetChildren()], the sub-units of a
    unit: the content when it is a node list, else nil. *)
Definition GetChildren (n : Node) : list Node :=
  match Content n with
  | CNodes l => l
  | _ => []
  end.

(** Modelled from the spec: [node.GetChildrenByTag(tag)], the sub-units
    carrying the tag. *)
Definition GetChildrenByTag (n : Node) (tag : string) : list Node :=
  filter (fun c => Tag c = tag) (GetChildren n).

(** [content, _ := child.Content.([]byte)]. *)
Definition content_bytes (n : Node) : bytes :=
  match Content n with
  | CBytes b => b
  | _ => []
  end.

(** ** [strconv.ParseInt(s, 10, 64)]

    The standard library's parser, by its documentation: an optional
    sign, then one or more decimal digits; a value outside the int64
    range is an error.  [None] stands for a non-nil error. *)

Definition digit_of (c : ascii) : option Z :=
  let n := Z.of_nat (nat_of_ascii c) in
  if ((48 <=? n) && (n <=? 57))%Z then Some (n - 48)%Z else None.

Fixpoint parse_digits (s : string) (acc : Z) : option Z :=
  match s with
  | EmptyString => Some acc
  | String c r =>
      match digit_of c with
      | None => None
      | Some d => parse_digits r (10 * acc + d)%Z
      end
  end.

Definition ParseUint (s : string) : option Z :=
  match s with
  | EmptyString => None
  | _ => parse_digits s 0%Z
  end.

Definition ParseInt (s : string) : option Z :=
  match s with
  | EmptyString => None
  | String c r =>
      let '(neg, body) :=
        if Ascii.eqb c "+"%char then (false, r)
        else if Ascii.eqb c "-"%char then (true, r)
        else (false, s) in
      match ParseUint body with
      | None => None
      | Some un =>
          let cutoff := (2 ^ 63)%Z in
          if (negb neg && (cutoff <=? un))%Z then None
          else if (neg && (cutoff <? un))%Z then None
          else Some (if neg then (- un)%Z else un)
      end
  end.

(** ** Message info *)

Record MessageInfo : Type := mkInfo {
  From : FullJID;
  Chat : option FullJID;
  ID : string;
  Type_ : string;
  Recipient : option FullJID;
  Notify : string;
  Timestamp : Z;
  Category : string
}.

(** [parseMessageInfo], with [waBinary.GroupServer] as an argument. *)
Definition parseMessageInfo (GroupServer : string) (node : Node)
  : MessageInfo + go_error :=
  match attr_jid (Attrs node) "from" with
  | None => inr ErrNoFrom
  | Some from =>
      let recipient := attr_jid (Attrs node) "recipient" in
      let sender :=
        if String.eqb (Server from) GroupServer
        then match attr_jid (Attrs node) "participant" with
             | Some p => inl (Some from, p)
             | None => inr ErrNoParticipant
             end
        else inl (None, from) in
      match sender with
      | inr e => inr e
      | inl (chat, who) =>
          match attr_string (Attrs node) "id" with
          | None => inr ErrNoID
          | Some id =>
              match attr_string (Attrs node) "t" with
              | None => inr ErrNoTimestamp
              | Some ts =>
                  match ParseInt ts with
                  | None => inr ErrBadTimestamp
                  | Some t =>
                      inl {| From := who;
                             Chat := chat;
                             ID := id;
                             Type_ := "";
                             Recipient := recipient;
                             Notify := default "" (attr_string (Attrs node) "notify");
                             Timestamp := t;
                             Category := default "" (attr_string (Attrs node) "category") |}
                  end
              end
          end
      end
  end.

(** ** What message.go consumes from other packages

    The Signal library ([session], [groups], [protocol], [ecc]), the
    protobuf codec ([proto], [waProto]), the blob download and zlib, the
    transport ([sendNode]) and the rest of the client ([Session],
    [preKeyToNode], the server constants) are outside message.go.  They
    are taken as an interface; message.go is modelled against any
    implementation of it. *)
Class Externals : Type := {
  (** [waBinary.UserServer], [ecc.DjbType] *)
  UserServer : string;
  DjbType : Byte.byte;
  (** the Signal store behind [cli.Session] *)
  SignalStore : Type;
  (** parsed ciphertext envelopes *)
  PreKeySignalMessage : Type;
  SignalMessage : Type;
  SenderKeyMessage : Type;
  SenderKeyDistribution : Type;
  NewPreKeySignalMessageFromBytes : bytes -> option PreKeySignalMessage;
  NewSignalMessageFromBytes : bytes -> option SignalMessage;
  NewSenderKeyMessageFromBytes : bytes -> option SenderKeyMessage;
  NewSenderKeyDistributionMessageFromBytes : bytes -> option SenderKeyDistribution;
  (** the ciphers: the plaintext or an error, and the store they leave *)
  DecryptMessageReturnKey :
    SignalStore -> FullJID -> PreKeySignalMessage -> option bytes * SignalStore;
  Decrypt : SignalStore -> FullJID -> SignalMessage -> option bytes * SignalStore;
  GroupDecrypt :
    SignalStore -> FullJID -> FullJID -> SenderKeyMessage -> option bytes * SignalStore;
  (** [builder.Process(senderKeyName, msg)], by chat and sender *)
  Process : SignalStore -> FullJID -> FullJID -> SenderKeyDistribution -> SignalStore;
  (** Modelled from the spec: [Session.GetOrGenPreKeys] is declared
      outside message.go; the spec calls it "a one-time-prekey generator"
      from which the retry takes "one freshly generated one-time prekey",
      so a call for [count] prekeys yields [count] prekeys. *)
  PreKey : Type;
  GetOrGenPreKeys : Z -> SignalStore -> list PreKey * SignalStore;
  GetOrGenPreKeys_len : forall count st,
    (0 <= count)%Z -> len (fst (GetOrGenPreKeys count st)) = count;
  preKeyToNode : PreKey -> Node;
  (** [waProto.Message] and the getters message.go calls *)
  ProtoMessage : Type;
  HistorySyncNotification : Type;
  Unmarshal : bytes -> option ProtoMessage;
  GetSenderKeyDistributionMessage : ProtoMessage -> option bytes;
  GetProtocolMessage : ProtoMessage -> bool;
  GetHistorySyncNotification : ProtoMessage -> option HistorySyncNotification;
  (** [proto.Marshal(cli.Session.Account)] *)
  Account : Type;
  Marshal : Account -> option bytes;
  (** history sync: download, inflate, decode *)
  HistorySync : Type;
  downloadMedia : HistorySyncNotification -> option bytes;
  zlibNewReader : bytes -> option bytes;
  ReadAll : bytes -> option bytes;
  UnmarshalHistorySync : bytes -> option HistorySync;
  (** whether [cli.sendNode] reports an error for a node *)
  sendNodeFails : Node -> bool
}.

Section Pipeline.
Context `{Ext : Externals}.

(** [cli.Session]: the fields message.go reads, and the Signal store. *)
Record Session : Type := mkSession {
  SessionID : FullJID;          (* Session.ID *)
  RegistrationID : Z;           (* uint16 *)
  SessionAccount : Account;     (* Session.Account *)
  IdentityKeyPub : bytes;       (* Session.IdentityKey.Pub[:] *)
  SignedPreKey : PreKey;
  Store : SignalStore
}.

(** [&Message{info, msg}]. *)
Record Message : Type := mkMessage { Info : MessageInfo; Msg : ProtoMessage }.

(** The lines message.go logs or prints. *)
Inductive log_line : Type :=
| LogDecrypting (n : Z) (info : MessageInfo)
| LogUnhandled (encType : string) (info : MessageInfo)
| LogDecryptError (info : MessageInfo) (e : go_error)
| LogUnmarshalError (info : MessageInfo)
| LogReceived (m : Message)
| LogSKDMParseError (from chat : FullJID)
| LogHistoryDownloadError
| LogHistoryZlibError
| LogHistoryReadError
| LogHistoryUnmarshalError
| LogHistoryReceived (h : HistorySync)
| LogProtocolReceiptError (id : string)
| LogReceiptError (id : string)
| LogMarshalAccountError
| LogRetryReceiptError (id : string).

(** What a run of the pipeline does to the outside, in order. *)
Inductive event : Type :=
| ELog (l : log_line)
| EDecrypt (encType : string) (ciphertext : bytes)  (* entry into a decrypt function *)
| ESend (n : Node)                                 (* cli.sendNode(n) *)
| EAck (n : Node)                                  (* cli.sendAck(n) *)
| EDispatch (m : Message).                         (* cli.dispatchEvent(m) *)

(** Modelled from the spec: the [Client] struct is declared outside
    message.go; its [messageRetries] field is the spec's "mapping from
    message id to an integer retry count".  The package variable
    [CheckPadding] is kept next to it. *)
Record Client : Type := mkClient {
  CheckPadding : bool;
  session : Session;
  messageRetries : gmap string Z
}.

(** *** The monad of client code: state, events and panics *)

(** How a call ends: it returns, or a panic unwinds it. *)
Inductive outcome (A : Type) : Type :=
| Done (a : A)
| Crashed (p : panic).
Arguments Done {A} a.
Arguments Crashed {A} p.

(** A run: how it ended, the client it left, the events it caused
    (oldest first). *)
Record run (A : Type) : Type := mkRun {
  result : outcome A;
  final : Client;
  events : list event
}.
Arguments mkRun {A} result final events.
Arguments result {A} r.
Arguments final {A} r.
Arguments events {A} r.

Definition M (A : Type) : Type := Client -> run A.

Definition ret {A} (a : A) : M A := fun c => mkRun (Done a) c [].

Definition bind {A B} (m : M A) (k : A -> M B) : M B :=
  fun c =>
    let r := m c in
    match result r with
    | Done a =>
        let r' := k a (final r) in
        mkRun (result r') (final r') (events r ++ events r')
    | Crashed p => mkRun (Crashed p) (final r) (events r)
    end.

Definition crash {A} (p : panic) : M A := fun c => mkRun (Crashed p) c [].

Definition get : M Client := fun c => mkRun (Done c) c [].

Definition emit (e : event) : M unit := fun c => mkRun (Done tt) c [e].

Definition with_store (s : Session) (st : SignalStore) : Session :=
  {| SessionID := SessionID s;
     RegistrationID := RegistrationID s;
     SessionAccount := SessionAccount s;
     IdentityKeyPub := IdentityKeyPub s;
     SignedPreKey := SignedPreKey s;
     Store := st |}.

Definition set_store (st : SignalStore) : M unit :=
  fun c => mkRun (Done tt)
                 {| CheckPadding := CheckPadding c;
                    session := with_store (session c) st;
                    messageRetries := messageRetries c |} [].

Definition set_retries (m : gmap string Z) : M unit :=
  fun c => mkRun (Done tt)
                 {| CheckPadding := CheckPadding c;
                    session := session c;
                    messageRetries := m |} [].

Notation "x <- m ;; k" := (bind m (fun x => k))
  (at level 100, m at next level, right associativity).
Notation "m ;; k" := (bind m (fun _ => k))
  (at level 100, right associativity).

(** A Go result inside client code: a panic unwinds. *)
Definition lift {A} (r : go_result A) : M (A + go_error) :=
  match r with
  | Ok v => ret (inl v)
  | Err e => ret (inr e)
  | Panics p => crash p
  end.

(** [cli.sendNode(n)]: hands [n] to the transport; [true] is a non-nil
    error. *)
Definition sendNode (n : Node) : M bool :=
  emit (ESend n) ;; ret (sendNodeFails n).

(** *** Session decryptor

    Each decrypt function first records an [EDecrypt] event, the mark of
    a decrypt attempt; the rest follows the source. *)

Definition decryptDM (child : Node) (from : FullJID) (isPreKey : bool)
  : M (bytes + go_error) :=
  let content := content_bytes child in
  emit (EDecrypt (if isPreKey then "pkmsg" else "msg") content) ;;
  if isPreKey then
    match NewPreKeySignalMessageFromBytes content with
    | None => ret (inr ErrParsePreKey)
    | Some preKeyMsg =>
        c <- get ;;
        let '(r, st) := DecryptMessageReturnKey (Store (session c)) from preKeyMsg in
        set_store st ;;
        match r with
        | None => ret (inr ErrDecryptPreKey)
        | Some plaintext => lift (unpadMessage (CheckPadding c) plaintext)
        end
    end
  else
    match NewSignalMessageFromBytes content with
    | None => ret (inr ErrParseNormal)
    | Some msg =>
        c <- get ;;
        let '(r, st) := Decrypt (Store (session c)) from msg in
        set_store st ;;
        match r with
        | None => ret (inr ErrDecryptNormal)
        | Some plaintext => lift (unpadMessage (CheckPadding c) plaintext)
        end
    end.

Definition decryptGroupMsg (child : Node) (from chat : FullJID)
  : M (bytes + go_error) :=
  let content := content_bytes child in
  emit (EDecrypt "skmsg" content) ;;
  match NewSenderKeyMessageFromBytes content with
  | None => ret (inr ErrParseGroup)
  | Some msg =>
      c <- get ;;
      let '(r, st) := GroupDecrypt (Store (session c)) chat from msg in
      set_store st ;;
      match r with
      | None => ret (inr ErrDecryptGroup)
      | Some plaintext => lift (unpadMessage (CheckPadding c) plaintext)
      end
  end.

(** *** Retry-receipt manager *)

(** [byte(v)] for a non-negative integer. *)
Definition byte_of_Z (v : Z) : Byte.byte :=
  default Byte.x00 (Byte.of_N (Z.to_N (v mod 256))).

(** [binary.BigEndian.PutUint16(b[2:], v)] on a zeroed [[4]byte]. *)
Definition registrationIDBytes (v : Z) : bytes :=
  [Byte.x00; Byte.x00; byte_of_Z (Z.shiftr v 8); byte_of_Z v].

Definition retryAttrs (node : Node) (id : string) : gmap string attr_value :=
  let attrs : gmap string attr_value :=
    <["id" := AString id]> (<["type" := AString "retry"]>
      (<["to" := attr (Attrs node) "from"]> ∅)) in
  let attrs :=
    match Attrs node !! "recipient" with
    | Some recipient => <["recipient" := recipient]> attrs
    | None => attrs
    end in
  match Attrs node !! "participant" with
  | Some participant => <["participant" := participant]> attrs
  | None => attrs
  end.

Definition retryChild (node : Node) (id : string) (retryCount : Z) : Node :=
  {| Tag := "retry";
     Attrs := <["count" := AInt retryCount]> (<["id" := AString id]>
                (<["t" := attr (Attrs node) "t"]> (<["v" := AInt 1]> ∅)));
     Content := CNil |}.

Definition registrationChild (s : Session) : Node :=
  {| Tag := "registration"; Attrs := ∅;
     Content := CBytes (registrationIDBytes (RegistrationID s)) |}.

Definition keysChild (s : Session) (key0 : PreKey) (deviceIdentity : bytes) : Node :=
  {| Tag := "keys"; Attrs := ∅;
     Content := CNodes
       [ {| Tag := "type"; Attrs := ∅; Content := CBytes [DjbType] |};
         {| Tag := "identity"; Attrs := ∅; Content := CBytes (IdentityKeyPub s) |};
         preKeyToNode key0;
         preKeyToNode (SignedPreKey s);
         {| Tag := "device-identity"; Attrs := ∅; Content := CBytes deviceIdentity |} ] |}.

(** The retry unit as first composed: the [retry] and [registration]
    children. *)
Definition retryPayload (node : Node) (id : string) (retryCount : Z) (s : Session)
  : Node :=
  {| Tag := "receipt";
     Attrs := retryAttrs node id;
     Content := CNodes [retryChild node id retryCount; registrationChild s] |}.

(** [payload.Content = append(payload.GetChildren(), child)]. *)
Definition appendChild (payload child : Node) : Node :=
  {| Tag := Tag payload;
     Attrs := Attrs payload;
     Content := CNodes (GetChildren payload ++ [child]) |}.

Definition sendRetryReceipt (node : Node) : M unit :=
  let id := default "" (attr_string (Attrs node) "id") in
  c <- get ;;
  let retryCount := (default 0 (messageRetries c !! id) + 1)%Z in
  set_retries (<[id := retryCount]> (messageRetries c)) ;;
  let payload := retryPayload node id retryCount (session c) in
  let send (payload : Node) : M unit :=
    err <- sendNode payload ;;
    if err then emit (ELog (LogRetryReceiptError id)) else ret tt in
  if (1 <? retryCount)%Z then
    let '(keys, st) := GetOrGenPreKeys 1 (Store (session c)) in
    set_store st ;;
    match Marshal (SessionAccount (session c)) with
    | None => emit (ELog LogMarshalAccountError)
    | Some deviceIdentity =>
        match index keys 0 with
        | None => crash IndexOutOfRange
        | Some key0 =>
            send (appendChild payload (keysChild (session c) key0 deviceIdentity))
        end
    end
  else send payload.

(** *** Receipts and acks *)

Definition sendProtocolMessageReceipt (id msgType : string) : M unit :=
  if (len (list_ascii_of_string id) =? 0)%Z then ret tt
  else
    c <- get ;;
    err <- sendNode
      {| Tag := "receipt";
         Attrs := <["id" := AString id]> (<["type" := AString msgType]>
                    (<["to" := AJID (NewJID (User (SessionID (session c))) UserServer)]> ∅));
         Content := CNil |} ;;
    if err then emit (ELog (LogProtocolReceiptError id)) else ret tt.

Definition receiptAttrs (s : Session) (info : MessageInfo) : gmap string attr_value :=
  let attrs : gmap string attr_value := <["id" := AString (ID info)]> ∅ in
  let isFromMe := String.eqb (User (From info)) (User (SessionID s)) in
  let attrs :=
    if isFromMe then <["type" := AString "sender"]> attrs
    else <["type" := AString "inactive"]> attrs in
  match Chat info with
  | Some chat =>
      <["participant" := AJID (From info)]> (<["to" := AJID chat]> attrs)
  | None =>
      let attrs := <["to" := AJID (From info)]> attrs in
      match isFromMe, Recipient info with
      | true, Some recipient => <["recipient" := AJID recipient]> attrs
      | _, _ => attrs
      end
  end.

Definition sendMessageReceipt (info : MessageInfo) : M unit :=
  c <- get ;;
  err <- sendNode {| Tag := "receipt";
                     Attrs := receiptAttrs (session c) info;
                     Content := CNil |} ;;
  if err then emit (ELog (LogReceiptError (ID info))) else ret tt.

(** [cli.sendAck(node)], declared outside message.go: recorded as an
    event. *)
Definition sendAck (node : Node) : M unit := emit (EAck node).

(** *** Decrypted-message dispatcher *)

(** [rawSKDMsg] is passed as its [AxolotlSenderKeyDistributionMessage]
    bytes. *)
Definition handleSenderKeyDistributionMessage (chat from : FullJID) (rawSKDMsg : bytes)
  : M unit :=
  match NewSenderKeyDistributionMessageFromBytes rawSKDMsg with
  | None => emit (ELog (LogSKDMParseError from chat))
  | Some sdkMsg =>
      c <- get ;;
      set_store (Process (Store (session c)) chat from sdkMsg)
  end.

Definition handleHistorySyncNotification (notif : HistorySyncNotification) : M unit :=
  match downloadMedia notif with
  | None => emit (ELog LogHistoryDownloadError)
  | Some data =>
      match zlibNewReader data with
      | None => emit (ELog LogHistoryZlibError)
      | Some reader =>
          match ReadAll reader with
          | None => emit (ELog LogHistoryReadError)
          | Some rawData =>
              match UnmarshalHistorySync rawData with
              | None => emit (ELog LogHistoryUnmarshalError)
              | Some historySync => emit (ELog (LogHistoryReceived historySync))
              end
          end
      end
  end.

Definition handleProtocolMessage (info : MessageInfo) (msg : ProtoMessage) : M unit :=
  match GetHistorySyncNotification msg with
  | Some notif =>
      handleHistorySyncNotification notif ;;
      sendProtocolMessageReceipt (ID info) "hist_sync"
  | None => ret tt
  end ;;
  if String.eqb (Category info) "peer"
  then sendProtocolMessageReceipt (ID info) "peer_msg"
  else ret tt.

(** [cli.dispatchEvent(evt)], declared outside message.go: recorded as an
    event. *)
Definition dispatchEvent (m : Message) : M unit := emit (EDispatch m).

Definition handleDecryptedMessage (info : MessageInfo) (msg : ProtoMessage) : M unit :=
  emit (ELog (LogReceived {| Info := info; Msg := msg |})) ;;
  match GetSenderKeyDistributionMessage msg with
  | Some rawSKDMsg =>
      match Chat info with                       (* *info.Chat *)
      | None => crash NilDereference
      | Some chat => handleSenderKeyDistributionMessage chat (From info) rawSKDMsg
      end
  | None => ret tt
  end ;;
  (if GetProtocolMessage msg then handleProtocolMessage info msg else ret tt) ;;
  dispatchEvent {| Info := info; Msg := msg |}.

(** *** The per-unit decrypt loop *)

(** How the body of the [for] loop leaves: it falls through to the next
    child with the current [handled] flag, or returns from
    [decryptMessages]. *)
Inductive loop_exit : Type :=
| Next (handled : bool)
| Return.

(** The rest of an iteration once the decrypt call has returned
    [decrypted, err]: the retry on an error, else decode and dispatch. *)
Definition handleDecryptResult (info : MessageInfo) (node : Node) (handled : bool)
    (r : bytes + go_error) : M loop_exit :=
  match r with
  | inr err =>
      emit (ELog (LogDecryptError info err)) ;;
      sendRetryReceipt node ;;
      ret Return
  | inl decrypted =>
      match Unmarshal decrypted with
      | None =>
          emit (ELog (LogUnmarshalError info)) ;;
          ret (Next handled)
      | Some msg =>
          handleDecryptedMessage info msg ;;
          ret (Next true)
      end
  end.

(** One iteration of [for _, child := range children]. *)
Definition decryptChild (info : MessageInfo) (node child : Node) (handled : bool)
  : M loop_exit :=
  if negb (String.eqb (Tag child) "enc") then ret (Next handled)
  else
    match attr_string (Attrs child) "type" with
    | None => ret (Next handled)
    | Some encType =>
        if String.eqb encType "pkmsg" || String.eqb encType "msg" then
          r <- decryptDM child (From info) (String.eqb encType "pkmsg") ;;
          handleDecryptResult info node handled r
        else
          match Chat info, String.eqb encType "skmsg" with
          | Some chat, true =>
              r <- decryptGroupMsg child (From info) chat ;;
              handleDecryptResult info node handled r
          | _, _ =>
              emit (ELog (LogUnhandled encType info)) ;;
              ret (Next handled)
          end
    end.

Fixpoint decryptLoop (info : MessageInfo) (node : Node) (children : list Node)
    (handled : bool) : M loop_exit :=
  match children with
  | [] => ret (Next handled)
  | child :: rest =>
      x <- decryptChild info node child handled ;;
      match x with
      | Return => ret Return
      | Next handled' => decryptLoop info node rest handled'
      end
  end.

Definition decryptMessages (info : MessageInfo) (node : Node) : M unit :=
  if (len (GetChildrenByTag node "unavailable") =? len (GetChildren node))%Z then
    sendRetryReceipt node
  else
    let children := GetChildren node in
    emit (ELog (LogDecrypting (len children) info)) ;;
    x <- decryptLoop info node children false ;;
    match x with
    | Return => ret tt
    | Next true => sendMessageReceipt info ;; sendAck node
    | Next false => ret tt
    end.

(** *** Observations on the events of a run *)

(** The messages handed to the event sink. *)
Definition dispatches (evs : list event) : list Message :=
  omap (fun e => match e with EDispatch m => Some m | _ => None end) evs.

(** The nodes handed to the transport. *)
Definition sends (evs : list event) : list Node :=
  omap (fun e => match e with ESend n => Some n | _ => None end) evs.

(** The inbound units acknowledged. *)
Definition acks (evs : list event) : list Node :=
  omap (fun e => match e with EAck n => Some n | _ => None end) evs.

(** The decrypt attempts: encryption type and ciphertext. *)
Definition decrypt_attempts (evs : list event) : list (string * bytes) :=
  omap (fun e => match e with EDecrypt t b => Some (t, b) | _ => None end) evs.

(** A retry unit: a [receipt] whose [type] attribute is ["retry"]. *)
Definition is_retry_unit (n : Node) : bool :=
  String.eqb (Tag n) "receipt" &&
  match Attrs n !! "type" with
  | Some (AString t) => String.eqb t "retry"
  | _ => false
  end.

Definition retry_units (evs : list event) : list Node :=
  List.filter is_retry_unit (sends evs).

(** The retry count recorded for an id; an absent id reads as 0. *)
Definition retry_count (c : Client) (id : string) : Z :=
  default 0%Z (messageRetries c !! id).

(** The id under which [sendRetryReceipt] counts a unit. *)
Definition retry_id (node : Node) : string :=
  default "" (attr_string (Attrs node) "id").

(** The nodes [sendRetryReceipt] sends, from the client it starts on:
    the plain retry unit up to retry count 1; above it, the unit with the
    key bundle, or nothing when the account cannot be serialised. *)
Definition retry_sends (node : Node) (c : Client) : list Node :=
  let id := retry_id node in
  let n := (retry_count c id + 1)%Z in
  let payload := retryPayload node id n (session c) in
  if (1 <? n)%Z then
    match Marshal (SessionAccount (session c)),
          fst (GetOrGenPreKeys 1 (Store (session c))) with
    | Some deviceIdentity, key0 :: _ =>
        [appendChild payload (keysChild (session c) key0 deviceIdentity)]
    | _, _ => []
    end
  else [payload].

(** The decrypt call the loop makes for a sub-unit, when it makes one:
    [decryptDM] for an [enc] child of type [pkmsg] or [msg],
    [decryptGroupMsg] for one of type [skmsg] in a group chat. *)
Definition decrypt_call (info : MessageInfo) (child : Node)
  : option (M (bytes + go_error)) :=
  if String.eqb (Tag child) "enc" then
    match attr_string (Attrs child) "type" with
    | None => None
    | Some encType =>
        if String.eqb encType "pkmsg" || String.eqb encType "msg" then
          Some (decryptDM child (From info) (String.eqb encType "pkmsg"))
        else
          match Chat info, String.eqb encType "skmsg" with
          | Some chat, true => Some (decryptGroupMsg child (From info) chat)
          | _, _ => None
          end
    end
  else None.

(** [c'] is [c] up to the Signal store. *)
Definition same_but_store (c c' : Client) : Prop :=
  c' = {| CheckPadding := CheckPadding c;
          session := with_store (session c) (Store (session c'));
          messageRetries := messageRetries c |}.

(** A computation that leaves the client as it was up to the Signal
    store, sends no retry unit, acknowledges nothing and attempts no
    decryption, and whose dispatches are [d] of how it ended. *)
Definition tame {A} (m : M A) (d : outcome A -> list Message) : Prop :=
  forall c,
    same_but_store c (final (m c)) /\
    retry_units (events (m c)) = [] /\
    acks (events (m c)) = [] /\
    decrypt_attempts (events (m c)) = [] /\
    dispatches (events (m c)) = d (result (m c)).

(** A computation that never panics. *)
Definition returns {A} (m : M A) : Prop :=
  forall c, exists a, result (m c) = Done a.

(** A tame computation that dispatches nothing. *)
Definition quiet {A} (m : M A) : Prop := tame m (fun _ => []).

End Pipeline.

Arguments Done {A} a.
Arguments Crashed {A} p.
Arguments mkRun {Ext A} result final events.
Arguments result {Ext A} r.
Arguments final {Ext A} r.
Arguments events {Ext A} r.

(** ** An in-memory implementation of the interface

    A small, executable implementation of [Externals], used to run the
    pipeline on concrete units: ciphertext envelopes are the raw bytes,
    the ciphers return the ciphertext as plaintext and fail on an empty
    one, the store counts the prekeys generated, an account is its own
    serialisation (or none), and an application payload is its bytes,
    with a leading [0x01] marking a sender-key distribution. *)
Module Fake.

Definition decrypt {A} (st : nat) (_ : A) (ciphertext : bytes) : option bytes * nat :=
  match ciphertext with
  | [] => (None, st)
  | _ => (Some ciphertext, st)
  end.

Definition genPreKeys (count : Z) (st : nat) : list nat * nat :=
  (seq st (Z.to_nat count), (st + Z.to_nat count)%nat).

Definition genPreKeys_len (count : Z) (st : nat) :
  (0 <= count)%Z -> len (fst (genPreKeys count st)) = count.
Proof. intros H. unfold len, genPreKeys. simpl. rewrite length_seq. lia. Qed.

Definition keyNode (k : nat) : Node :=
  {| Tag := "key"; Attrs := {["id" := AInt (Z.of_nat k)]}; Content := CNil |}.

Definition unmarshal (b : bytes) : option bytes :=
  match b with
  | [] => None
  | _ => Some b
  end.

Definition skdm (m : bytes) : option bytes :=
  match m with
  | Byte.x01 :: raw => Some raw
  | _ => None
  end.

Definition ext : Externals := {|
  UserServer := "s.whatsapp.net";
  DjbType := Byte.x05;
  SignalStore := nat;
  PreKeySignalMessage := bytes;
  SignalMessage := bytes;
  SenderKeyMessage := bytes;
  SenderKeyDistribution := bytes;
  NewPreKeySignalMessageFromBytes := Some;
  NewSignalMessageFromBytes := Some;
  NewSenderKeyMessageFromBytes := Some;
  NewSenderKeyDistributionMessageFromBytes := Some;
  DecryptMessageReturnKey := decrypt;
  Decrypt := decrypt;
  GroupDecrypt := fun st _ => decrypt st;
  Process := fun st _ _ _ => st;
  PreKey := nat;
  GetOrGenPreKeys := genPreKeys;
  GetOrGenPreKeys_len := genPreKeys_len;
  preKeyToNode := keyNode;
  ProtoMessage := bytes;
  HistorySyncNotification := unit;
  Unmarshal := unmarshal;
  GetSenderKeyDistributionMessage := skdm;
  GetProtocolMessage := fun _ => false;
  GetHistorySyncNotification := fun _ => None;
  Account := option bytes;
  Marshal := fun a => a;
  HistorySync := unit;
  downloadMedia := fun _ => None;
  zlibNewReader := Some;
  ReadAll := Some;
  UnmarshalHistorySync := fun _ => Some tt;
  sendNodeFails := fun _ => false
|}.

(** A client: registration id 0x1234, the given account, and the given
    retry counters. *)
Definition client (account : option bytes) (retries : gmap string Z) : @Client ext :=
  @mkClient ext true
    (@mkSession ext (NewJID "me" "s.whatsapp.net") 4660%Z account [Byte.x2a] 7%nat 100%nat)
    retries.

Definition alice : FullJID := NewJID "alice" "s.whatsapp.net".
Definition group : FullJID := NewJID "123-456" "g.us".

(** An [enc] sub-unit. *)
Definition enc (encType : string) (ciphertext : bytes) : Node :=
  {| Tag := "enc"; Attrs := {["type" := AString encType]};
     Content := CBytes ciphertext |}.

Definition unavailable : Node :=
  {| Tag := "unavailable"; Attrs := ∅; Content := CNil |}.

(** A [message] unit from [alice] with id ["A"] and the given children. *)
Definition unit_of (children : list Node) : Node :=
  {| Tag := "message";
     Attrs := <["from" := AJID alice]> (<["id" := AString "A"]>
                (<["t" := AString "1630000000"]> ∅));
     Content := CNodes children |}.

(** A [message] unit sent by [alice] in [group]. *)
Definition group_unit_of (children : list Node) : Node :=
  {| Tag := "message";
     Attrs := <["from" := AJID group]> (<["participant" := AJID alice]>
                (<["id" := AString "G"]> (<["t" := AString "1630000000"]> ∅)));
     Content := CNodes children |}.

(** Three [msg] sub-units: the first carries a payload padded with one
    byte, the second is empty (the cipher fails on it), the third is like
    the first. *)
Definition sub1 : Node := enc "msg" [Byte.x68; Byte.x01].
Definition sub2 : Node := enc "msg" [].
Definition sub3 : Node := enc "msg" [Byte.x69; Byte.x01].
Definition batch : Node := unit_of [sub1; sub2; sub3].

Definition info_of (node : Node) : MessageInfo :=
  match parseMessageInfo "g.us" node with
  | inl info => info
  | inr _ => mkInfo alice None "" "" None "" 0 ""
  end.

(** Two decoded payloads: one carrying a sender-key distribution, one
    plain. *)
Definition skdm_msg : @ProtoMessage ext := [Byte.x01; Byte.x02].
Definition hello : @ProtoMessage ext := [Byte.x68].

(** A client with one retry already counted for id ["A"]. *)
Definition retried (account : option bytes) : @Client ext :=
  client account {["A" := 1%Z]}.

End Fake.

(** ** The claim-side reading of the padding check

    "The final [v] bytes of the buffer are all equal to [v]": the buffer
    holds at least [v] bytes and each of its last [v] bytes is the byte
    [v]. *)
Definition final_bytes_all (buf : bytes) (v : Byte.byte) : Prop :=
  (byte_int v <= len buf)%Z /\
  Forall (fun b => b = v) (skipn (Z.to_nat (len buf - byte_int v)) buf).

(** The spec's error class [MalformedMessage] ("unparsable
    addressing/metadata"): the errors [parseMessageInfo] returns. *)
Definition MalformedMessage (e : go_error) : Prop :=
  e = ErrNoFrom \/ e = ErrNoParticipant \/ e = ErrNoID \/
  e = ErrNoTimestamp \/ e = ErrBadTimestamp.

(** ** The receive-path entry point *)

(** What [handleEncryptedMessage] does with a node: the boolean it
    returns, the parse error it warns about, and the call it starts on a
    goroutine of its own ([go cli.decryptMessages(info, node)]), kept as
    the arguments of that call. *)
Record received : Type := mkReceived {
  consumed : bool;
  parse_warning : option go_error;
  started : option (MessageInfo * Node)
}.

(** [handleEncryptedMessage], with [waBinary.GroupServer] as an
    argument. *)
Definition handleEncryptedMessage (GroupServer : string) (node : Node) : received :=
  if negb (String.eqb (Tag node) "message") then
    {| consumed := false; parse_warning := None; started := None |}
  else
    match parseMessageInfo GroupServer node with
    | inr err => {| consumed := true; parse_warning := Some err; started := None |}
    | inl info => {| consumed := true; parse_warning := None; started := Some (info, node) |}
    end.

(** ** Sequences of calls *)

Section Sequences.
Context `{Ext : Externals}.

(** [n] retry triggers for the same inbound node, one after the other. *)
Fixpoint triggers (node : Node) (n : nat) : M unit :=
  match n with
  | O => ret tt
  | S k => bind (triggers node k) (fun _ => sendRetryReceipt node)
  end.

(** The client [handleDecryptedMessage] leaves when it returns: the
    Signal store has processed the sender-key distribution, when there is
    one and it parses; nothing else has changed. *)
Definition after_distribution (info : MessageInfo) (msg : ProtoMessage) (c : Client)
  : Client :=
  match GetSenderKeyDistributionMessage msg, Chat info with
  | Some raw, Some chat =>
      match NewSenderKeyDistributionMessageFromBytes raw with
      | Some sdk =>
          {| CheckPadding := CheckPadding c;
             session := with_store (session c)
                          (Process (Store (session c)) chat (From info) sdk);
             messageRetries := messageRetries c |}
      | None => c
      end
  | _, _ => c
  end.

(** What holds of the loop of [decryptMessages] at any point, for a run
    [r] of it that started on client [c] with the flag [handled], over
    sub-units of which [encs] are tagged [enc]: nothing is acknowledged
    inside the loop; every dispatch follows a decrypt attempt of its own
    and there is at most one attempt per [enc] sub-unit; every dispatched
    message carries the info of the unit; and, by the way the loop left:
    going on, only the Signal store has changed, no retry unit was sent,
    and the flag is set exactly if it was set or something was
    dispatched; returning, the last thing done was one retry trigger, on a
    client that differed from [c] in the Signal store only; panicking,
    only the Signal store has changed and no retry unit was sent. *)
Definition loop_invariant (info : MessageInfo) (node : Node) (encs : nat)
    (handled : bool) (c : Client) (r : run loop_exit) : Prop :=
  acks (events r) = [] /\
  (length (dispatches (events r)) <= length (decrypt_attempts (events r)))%nat /\
  (length (decrypt_attempts (events r)) <= encs)%nat /\
  Forall (fun m => Info m = info) (dispatches (events r)) /\
  match result r with
  | Done (Next h) =>
      same_but_store c (final r) /\
      retry_units (events r) = [] /\
      (h = true <-> handled = true \/ dispatches (events r) <> [])
  | Done Return =>
      exists c1, same_but_store c c1 /\
                 final r = final (sendRetryReceipt node c1) /\
                 retry_units (events r) = retry_sends node c1
  | Crashed _ =>
      same_but_store c (final r) /\ retry_units (events r) = []
  end.

End Sequences.

(** ** An implementation whose ciphers return the empty plaintext

    As [Fake], but every cipher succeeds with a plaintext of no bytes, as
    the ciphers do on a message that was encrypted without content. *)
Module Blank.

Definition decrypt {A B} (st : nat) (_ : A) (_ : B) : option bytes * nat :=
  (Some [], st).

Definition ext : Externals := {|
  UserServer := "s.whatsapp.net";
  DjbType := Byte.x05;
  SignalStore := nat;
  PreKeySignalMessage := bytes;
  SignalMessage := bytes;
  SenderKeyMessage := bytes;
  SenderKeyDistribution := bytes;
  NewPreKeySignalMessageFromBytes := Some;
  NewSignalMessageFromBytes := Some;
  NewSenderKeyMessageFromBytes := Some;
  NewSenderKeyDistributionMessageFromBytes := Some;
  DecryptMessageReturnKey := decrypt;
  Decrypt := decrypt;
  GroupDecrypt := fun st _ => decrypt st;
  Process := fun st _ _ _ => st;
  PreKey := nat;
  GetOrGenPreKeys := Fake.genPreKeys;
  GetOrGenPreKeys_len := Fake.genPreKeys_len;
  preKeyToNode := Fake.keyNode;
  ProtoMessage := bytes;
  HistorySyncNotification := unit;
  Unmarshal := Fake.unmarshal;
  GetSenderKeyDistributionMessage := Fake.skdm;
  GetProtocolMessage := fun _ => false;
  GetHistorySyncNotification := fun _ => None;
  Account := option bytes;
  Marshal := fun a => a;
  HistorySync := unit;
  downloadMedia := fun _ => None;
  zlibNewReader := Some;
  ReadAll := Some;
  UnmarshalHistorySync := fun _ => Some tt;
  sendNodeFails := fun _ => false
|}.

Definition client : @Client ext :=
  @mkClient ext true
    (@mkSession ext (NewJID "me" "s.whatsapp.net") 4660%Z None [Byte.x2a] 7%nat 100%nat)
    ∅.

End Blank.

(** * Properties *)

(** ** Padding codec *)

Section PaddingCodec.

Lemma byte_int_range (b : Byte.byte) : (0 <= byte_int b <= 255)%Z.
Proof.
  unfold byte_int. pose proof (Byte.to_N_bounded b). lia.
Qed.

Lemma low4_mod (b : Byte.byte) : low4 b = (byte_int b mod 16)%Z.
Proof.
  unfold low4. change 15%Z with (Z.ones 4). now rewrite Z.land_ones by lia.
Qed.

Lemma low4_range (b : Byte.byte) : (0 <= low4 b <= 15)%Z.
Proof.
  rewrite low4_mod.
  pose proof (Z.mod_pos_bound (byte_int b) 16 ltac:(lia)). lia.
Qed.

Lemma low4_small (b : Byte.byte) : (byte_int b <= 15)%Z -> low4 b = byte_int b.
Proof.
  intros H. rewrite low4_mod. pose proof (byte_int_range b).
  apply Z.mod_small. lia.
Qed.

Lemma Repeat_single (b : Byte.byte) (n : Z) : Repeat [b] n = repeat b (Z.to_nat n).
Proof.
  unfold Repeat. induction (Z.to_nat n) as [|k IH]; simpl; [reflexivity|].
  now rewrite IH.
Qed.

Lemma len_app {A} (l1 l2 : list A) : len (l1 ++ l2) = (len l1 + len l2)%Z.
Proof. unfold len. rewrite length_app. lia. Qed.

Lemma len_nonneg {A} (l : list A) : (0 <= len l)%Z.
Proof. unfold len. lia. Qed.

Lemma index_last {A} (pre : list A) (b : A) :
  index (pre ++ [b]) (len (pre ++ [b]) - 1) = Some b.
Proof.
  unfold index. rewrite len_app. pose proof (len_nonneg pre) as Hp.
  change (len [b]) with 1%Z.
  destruct (Z.ltb_spec (len pre + 1 - 1) 0) as [Hlt|_]; [lia|].
  replace (Z.to_nat (len pre + 1 - 1)) with (length pre) by (unfold len; lia).
  rewrite nth_error_app2 by lia. now rewrite Nat.sub_diag.
Qed.

Lemma HasSuffix_iff (s suffix : bytes) :
  HasSuffix s suffix = true <-> exists pre, s = pre ++ suffix.
Proof.
  unfold HasSuffix, Equal. rewrite andb_true_iff, Z.leb_le, bool_decide_eq_true.
  split.
  - intros [Hle Heq]. exists (firstn (Z.to_nat (len s - len suffix)) s).
    rewrite <- Heq at 2. symmetry. apply firstn_skipn.
  - intros [pre ->]. rewrite len_app. split; [pose proof (len_nonneg pre); lia|].
    replace (Z.to_nat (len pre + len suffix - len suffix)) with (length pre)
      by (unfold len; lia).
    now rewrite skipn_app, Nat.sub_diag, skipn_all.
Qed.

Lemma slice_to_app {A} (r suffix : list A) :
  slice_to (r ++ suffix) (len (r ++ suffix) - len suffix) = Some r.
Proof.
  unfold slice_to. fold (len (r ++ suffix)). rewrite len_app.
  pose proof (len_nonneg r). pose proof (len_nonneg suffix).
  destruct (Z.ltb_spec (len r + len suffix - len suffix) 0); [lia|].
  destruct (Z.ltb_spec (len r + len suffix) (len r + len suffix - len suffix)); [lia|].
  simpl. f_equal.
  replace (Z.to_nat (len r + len suffix - len suffix)) with (length r)
    by (unfold len; lia).
  now rewrite firstn_app, Nat.sub_diag, firstn_all, app_nil_r.
Qed.

Lemma len_repeat {A} (x : A) (n : Z) : (0 <= n)%Z -> len (repeat x (Z.to_nat n)) = n.
Proof. intros H. unfold len. rewrite repeat_length. lia. Qed.

Lemma Forall_eq_repeat {A} (v : A) (l : list A) :
  Forall (fun b => b = v) l <-> l = repeat v (length l).
Proof.
  split.
  - induction 1 as [|x l -> _ IH]; simpl; [reflexivity|]. now rewrite <- IH.
  - intros ->. induction (length l); simpl; constructor; auto.
Qed.

(** The claim-side reading and the suffix test of the code agree. *)
Lemma final_bytes_all_iff (buf : bytes) (v : Byte.byte) :
  final_bytes_all buf v <->
  exists rest, buf = rest ++ repeat v (Z.to_nat (byte_int v)).
Proof.
  pose proof (byte_int_range v) as Hv. unfold final_bytes_all. split.
  - intros [Hle Hall]. apply Forall_eq_repeat in Hall.
    exists (firstn (Z.to_nat (len buf - byte_int v)) buf).
    rewrite <- (firstn_skipn (Z.to_nat (len buf - byte_int v)) buf) at 1.
    f_equal. rewrite Hall at 1. f_equal.
    rewrite length_skipn. unfold len in *. lia.
  - intros [rest ->]. rewrite len_app, len_repeat by lia.
    pose proof (len_nonneg rest). split; [lia|].
    replace (Z.to_nat (len rest + byte_int v - byte_int v)) with (length rest)
      by (unfold len; lia).
    rewrite skipn_app, Nat.sub_diag, skipn_all, skipn_O. simpl.
    apply Forall_eq_repeat. now rewrite repeat_length.
Qed.

(** Stripping a well-formed padding: on [rest ++ v^v] the codec returns
    [rest], with the check on or off. *)
Lemma unpadMessage_padded (cp : bool) (rest : bytes) (v : Byte.byte) :
  (1 <= byte_int v)%Z ->
  unpadMessage cp (rest ++ repeat v (Z.to_nat (byte_int v))) = Ok rest.
Proof.
  intros Hv. pose proof (byte_int_range v) as Hr.
  assert (Hlast : exists pre, rest ++ repeat v (Z.to_nat (byte_int v)) = pre ++ [v]).
  { destruct (Z.to_nat (byte_int v)) as [|k] eqn:Hk; [lia|].
    exists (rest ++ repeat v k).
    rewrite <- app_assoc. f_equal.
    change (repeat v (S k)) with (v :: repeat v k). apply repeat_cons. }
  destruct Hlast as [pre Hpre].
  assert (Hidx : index (rest ++ repeat v (Z.to_nat (byte_int v)))
                   (len (rest ++ repeat v (Z.to_nat (byte_int v))) - 1) = Some v).
  { rewrite Hpre. apply index_last. }
  assert (Hslice : slice_to (rest ++ repeat v (Z.to_nat (byte_int v)))
                     (len (rest ++ repeat v (Z.to_nat (byte_int v))) - byte_int v)
                   = Some rest).
  { rewrite <- (len_repeat v (byte_int v)) at 3 by lia. apply slice_to_app. }
  unfold unpadMessage. rewrite Hidx, Hslice, Repeat_single.
  destruct cp; [|reflexivity].
  assert (Hs : HasSuffix (rest ++ repeat v (Z.to_nat (byte_int v)))
                 (repeat v (Z.to_nat (byte_int v))) = true)
    by (apply HasSuffix_iff; eauto).
  now rewrite Hs.
Qed.

(** What [padMessage] appends: [pad[0] & 0xf] copies of the byte drawn,
    [pad[0]] itself. *)
Lemma padMessage_appends (r : Byte.byte) (x : bytes) :
  padMessage (RandByte r) x = Ok (x ++ repeat r (Z.to_nat (low4 r))).
Proof. unfold padMessage. now rewrite Repeat_single. Qed.

(** A draw whose low nibble is 0 appends nothing. *)
Lemma padMessage_zero_nibble (r : Byte.byte) (x : bytes) :
  low4 r = 0%Z -> padMessage (RandByte r) x = Ok x.
Proof. intros H. rewrite padMessage_appends, H. simpl. now rewrite app_nil_r. Qed.

(** For a draw between 1 and 15 the byte appended is its own count, and
    unpadding inverts padding. *)
Lemma unpadMessage_padMessage (cp : bool) (r : Byte.byte) (x : bytes) :
  (1 <= byte_int r <= 15)%Z ->
  exists p, padMessage (RandByte r) x = Ok p /\ unpadMessage cp p = Ok x.
Proof.
  intros Hr. eexists. split; [apply padMessage_appends|].
  rewrite low4_small by lia. apply unpadMessage_padded. lia.
Qed.

(** Whatever [unpadMessage] returns is the buffer without its last
    [int(lastByte)] bytes. *)
Lemma unpadMessage_Ok_len (cp : bool) (p y : bytes) :
  unpadMessage cp p = Ok y ->
  exists lastByte, index p (len p - 1) = Some lastByte /\
                   len y = (len p - byte_int lastByte)%Z.
Proof.
  unfold unpadMessage. intros H.
  destruct (index p (len p - 1)) as [b|] eqn:Hb; [|destruct cp; discriminate].
  exists b. split; [reflexivity|].
  assert (Hs : slice_to p (len p - byte_int b) = Some y).
  { destruct cp.
    - destruct (negb (HasSuffix p (Repeat [b] (byte_int b)))); [discriminate|].
      destruct (slice_to p (len p - byte_int b)); [now inversion H|discriminate].
    - destruct (slice_to p (len p - byte_int b)); [now inversion H|discriminate]. }
  unfold slice_to in Hs. fold (len p) in Hs.
  destruct ((len p - byte_int b <? 0)%Z || (len p <? len p - byte_int b)%Z) eqn:E;
    [discriminate|].
  apply orb_false_iff in E. destruct E as [E1 E2].
  apply Z.ltb_ge in E1. inversion Hs as [Hy].
  unfold len at 1. rewrite length_firstn. unfold len in *. lia.
Qed.

(** A draw of 16 or more with a non-zero low nibble is never inverted:
    the byte appended is not the count appended. *)
Lemma unpadMessage_padMessage_high_draw (cp : bool) (r : Byte.byte) (x p : bytes) :
  (16 <= byte_int r)%Z -> (1 <= low4 r)%Z ->
  padMessage (RandByte r) x = Ok p ->
  unpadMessage cp p <> Ok x.
Proof.
  intros Hr Hk Hp Hu. rewrite padMessage_appends in Hp. inversion Hp as [Hp'].
  pose proof (low4_range r) as Hl.
  apply unpadMessage_Ok_len in Hu. destruct Hu as (b & Hb & Hlen).
  assert (Hlast : index p (len p - 1) = Some r).
  { rewrite <- Hp'. destruct (Z.to_nat (low4 r)) as [|k] eqn:Ek; [lia|].
    change (repeat r (S k)) with (r :: repeat r k).
    rewrite repeat_cons, app_assoc. apply index_last. }
  rewrite Hlast in Hb. inversion Hb; subst b.
  rewrite <- Hp', len_app, len_repeat in Hlen by lia. lia.
Qed.

(** C1, at the inputs where it fails.  The claim: for every byte
    sequence [x] and every pad draw in [0,15], unpadding the padded [x]
    succeeds and returns [x].  With the draw 0 [padMessage] appends
    nothing, so [unpadMessage] reads the last byte of [x] itself as a
    padding count: the one-byte message [01] comes back empty, and the
    empty message makes [unpadMessage] panic.  (For draws 1 to 15 the
    round trip holds: [unpadMessage_padMessage].) *)
Theorem unpad_pad_zero_draw :
  padMessage (RandByte Byte.x00) [Byte.x01] = Ok [Byte.x01] /\
  unpadMessage true [Byte.x01] = Ok [] /\
  padMessage (RandByte Byte.x00) [] = Ok [] /\
  unpadMessage true [] = Panics IndexOutOfRange.
Proof. repeat split; reflexivity. Qed.

(** C2, at an input where it fails.  The claim: pad appends [k] copies
    of the byte value [v], the random byte masked to its low 4 bits, with
    [k = v], so every appended byte equals the padding count.  With the
    random byte 0x25 the count is masked ([0x25 & 0xf = 5]) but the byte
    appended is not: five copies of 0x25 (37) are appended, which
    [unpadMessage] rejects. *)
Theorem padMessage_appends_unmasked_byte :
  padMessage (RandByte Byte.x25) [] = Ok (repeat Byte.x25 5) /\
  low4 Byte.x25 = 5%Z /\
  byte_int Byte.x25 = 37%Z /\
  unpadMessage true (repeat Byte.x25 5) = Err ErrBadPadding.
Proof. repeat split; reflexivity. Qed.

(** C3.  For a non-empty buffer whose last byte is [v], with padding
    validation enabled: if the final [v] bytes are not all equal to [v],
    [unpadMessage] fails with the bad-padding error; otherwise it succeeds
    and returns the buffer without its [v] trailing bytes. *)
Theorem unpadMessage_validates (buf pre : bytes) (v : Byte.byte) :
  buf = pre ++ [v] ->
  (~ final_bytes_all buf v -> unpadMessage true buf = Err ErrBadPadding) /\
  (final_bytes_all buf v ->
     exists rest, unpadMessage true buf = Ok rest /\
                  buf = rest ++ repeat v (Z.to_nat (byte_int v)) /\
                  len rest = (len buf - byte_int v)%Z).
Proof.
  intros Hbuf. pose proof (byte_int_range v) as Hv.
  assert (Hidx : index buf (len buf - 1) = Some v) by (subst buf; apply index_last).
  split.
  - intros Hno. unfold unpadMessage. rewrite Hidx, Repeat_single.
    destruct (HasSuffix buf (repeat v (Z.to_nat (byte_int v)))) eqn:Hs; [|reflexivity].
    exfalso. apply Hno, final_bytes_all_iff, HasSuffix_iff, Hs.
  - intros Hall. apply final_bytes_all_iff in Hall. destruct Hall as [rest Hrest].
    exists rest. split; [|split].
    + unfold unpadMessage. rewrite Hidx, Repeat_single.
      assert (Hs : HasSuffix buf (repeat v (Z.to_nat (byte_int v))) = true)
        by (apply HasSuffix_iff; eauto).
      rewrite Hs. simpl.
      rewrite Hrest at 1 2.
      rewrite <- (len_repeat v (byte_int v)) at 3 by lia.
      now rewrite slice_to_app.
    + exact Hrest.
    + rewrite Hrest, len_app, len_repeat by lia. lia.
Qed.

(** The check on the buffer [0a 03 03 03]: three bytes of padding are
    stripped. *)
Lemma unpadMessage_validates_witness :
  final_bytes_all [Byte.x0a; Byte.x03; Byte.x03; Byte.x03] Byte.x03 /\
  exists rest,
    unpadMessage true [Byte.x0a; Byte.x03; Byte.x03; Byte.x03] = Ok rest /\
    [Byte.x0a; Byte.x03; Byte.x03; Byte.x03]
      = rest ++ repeat Byte.x03 (Z.to_nat (byte_int Byte.x03)) /\
    len rest = (len [Byte.x0a; Byte.x03; Byte.x03; Byte.x03] - byte_int Byte.x03)%Z.
Proof.
  assert (H : final_bytes_all [Byte.x0a; Byte.x03; Byte.x03; Byte.x03] Byte.x03).
  { split; [vm_compute; discriminate|]. vm_compute. repeat constructor. }
  split; [exact H|].
  apply (unpadMessage_validates [Byte.x0a; Byte.x03; Byte.x03; Byte.x03]
           [Byte.x0a; Byte.x03; Byte.x03] Byte.x03 eq_refl); exact H.
Defined.

(** C4, at the input where it fails.  The claim: [unpadMessage] on the
    empty byte sequence returns an error rather than crashing.  The code
    indexes [plaintext[len(plaintext)-1]] first, with the check on or off:
    on the empty sequence that is index -1, a run-time panic. *)
Theorem unpadMessage_empty_panics (cp : bool) :
  unpadMessage cp [] = Panics IndexOutOfRange.
Proof. destruct cp; reflexivity. Qed.

End PaddingCodec.

(** ** Message-info extractor *)

Section MessageInfoExtractor.

Variable gs : string.   (* waBinary.GroupServer *)

(** Case analysis on a run of [parseMessageInfo]: unfold it in [H] and
    split on every attribute it reads. *)
Ltac parse_cases H :=
  unfold parseMessageInfo in H;
  repeat match type of H with
         | context [attr_jid ?m ?k] => destruct (attr_jid m k) eqn:?
         | context [attr_string ?m ?k] => destruct (attr_string m k) eqn:?
         | context [String.eqb ?a ?b] => destruct (String.eqb a b) eqn:?
         | context [ParseInt ?t] => destruct (ParseInt t) eqn:?
         end.

Lemma parseMessageInfo_error_class (node : Node) (e : go_error) :
  parseMessageInfo gs node = inr e -> MalformedMessage e.
Proof.
  unfold MalformedMessage. intros H. parse_cases H;
    inversion H; subst; auto 6.
Qed.

(** A failed extraction, with its error class. *)
Lemma parseMessageInfo_fails (node : Node) :
  (forall info, parseMessageInfo gs node <> inl info) ->
  exists e, parseMessageInfo gs node = inr e /\ MalformedMessage e.
Proof.
  intros Hno. destruct (parseMessageInfo gs node) as [info|e] eqn:E.
  - now destruct (Hno info).
  - exists e. split; [reflexivity|]. now apply parseMessageInfo_error_class with node.
Qed.

(** C6.  For a unit with a valid [from] address.  Group address: without
    a valid [participant] the extraction fails with the malformed-message
    error for the participant, and whenever it succeeds the sender is the
    [participant] address and [chat] is the group address.  Direct
    address: whenever it succeeds the sender is the [from] address and
    [chat] is unset.  Either way a missing or non-string [id], a missing or
    non-string [t], or a [t] that is not a base-10 int64, fails with a
    malformed-message error; and with all of these valid the extraction
    succeeds with that id and timestamp, for any string as the id, the
    empty string included. *)
Theorem parseMessageInfo_contract (node : Node) (from : FullJID) :
  attr_jid (Attrs node) "from" = Some from ->
  (Server from = gs ->
     (attr_jid (Attrs node) "participant" = None ->
        parseMessageInfo gs node = inr ErrNoParticipant /\
        MalformedMessage ErrNoParticipant) /\
     (forall info, parseMessageInfo gs node = inl info ->
        attr_jid (Attrs node) "participant" = Some (From info) /\
        Chat info = Some from)) /\
  (Server from <> gs ->
     forall info, parseMessageInfo gs node = inl info ->
       From info = from /\ Chat info = None) /\
  (attr_string (Attrs node) "id" = None ->
     exists e, parseMessageInfo gs node = inr e /\ MalformedMessage e) /\
  (attr_string (Attrs node) "t" = None ->
     exists e, parseMessageInfo gs node = inr e /\ MalformedMessage e) /\
  (forall ts, attr_string (Attrs node) "t" = Some ts -> ParseInt ts = None ->
     exists e, parseMessageInfo gs node = inr e /\ MalformedMessage e) /\
  (forall id ts t,
     (Server from = gs -> attr_jid (Attrs node) "participant" <> None) ->
     attr_string (Attrs node) "id" = Some id ->
     attr_string (Attrs node) "t" = Some ts ->
     ParseInt ts = Some t ->
     exists info, parseMessageInfo gs node = inl info /\
                  ID info = id /\ Timestamp info = t).
Proof.
  intros Hfrom. split; [|split; [|split; [|split; [|split]]]].
  - (* group address *)
    intros Hgroup. apply String.eqb_eq in Hgroup. split.
    + intros Hpart. split; [|unfold MalformedMessage; auto].
      unfold parseMessageInfo. now rewrite Hfrom, Hgroup, Hpart.
    + intros info Hok. parse_cases Hok; try discriminate; try congruence.
      all: inversion Hok; subst; simpl; split; congruence.
  - (* direct address *)
    intros Hdirect info Hok. apply String.eqb_neq in Hdirect.
    parse_cases Hok; try discriminate; try congruence.
    all: inversion Hok; subst; simpl; split; congruence.
  - (* id *)
    intros Hid. apply parseMessageInfo_fails. intros info Hok.
    parse_cases Hok; try discriminate; congruence.
  - (* t missing *)
    intros Ht. apply parseMessageInfo_fails. intros info Hok.
    parse_cases Hok; try discriminate; congruence.
  - (* t unparsable *)
    intros ts Ht Hp. apply parseMessageInfo_fails. intros info Hok.
    parse_cases Hok; try discriminate; congruence.
  - (* all valid *)
    intros id ts t Hpart Hid Ht Hp.
    unfold parseMessageInfo. rewrite Hfrom, Hid, Ht, Hp.
    destruct (String.eqb (Server from) gs) eqn:Es.
    + apply String.eqb_eq in Es.
      destruct (attr_jid (Attrs node) "participant") as [p|] eqn:Ep;
        [|now destruct (Hpart Es)].
      eexists; split; [reflexivity|]. split; reflexivity.
    + eexists; split; [reflexivity|]. split; reflexivity.
Qed.

End MessageInfoExtractor.

(** The contract on a unit sent by [alice] in [group]. *)
Lemma parseMessageInfo_contract_witness :
  attr_jid (Attrs (Fake.group_unit_of [])) "from" = Some Fake.group /\
  exists info, parseMessageInfo "g.us" (Fake.group_unit_of []) = inl info /\
               ID info = "G" /\ Timestamp info = 1630000000%Z.
Proof.
  split; [reflexivity|].
  destruct (parseMessageInfo_contract "g.us" (Fake.group_unit_of []) Fake.group eq_refl)
    as (_ & _ & _ & _ & _ & H).
  apply (H "G" "1630000000" 1630000000%Z); try reflexivity.
  intros _; discriminate.
Defined.

(** C6, the claim as stated fails: a valid [id] is a non-empty string,
    and the [id] attribute of this unit is the empty string; the
    extraction does not fail with a malformed-message error, it succeeds
    with the empty id. *)
Lemma parseMessageInfo_empty_id :
  attr_string (<["from" := AJID Fake.alice]> (<["id" := AString ""]>
                 (<["t" := AString "0"]> ∅))) "id" = Some "" /\
  (exists info,
     parseMessageInfo "g.us"
       {| Tag := "message";
          Attrs := <["from" := AJID Fake.alice]> (<["id" := AString ""]>
                     (<["t" := AString "0"]> ∅));
          Content := CNil |} = inl info /\ ID info = "") /\
  ~ (exists e,
       parseMessageInfo "g.us"
         {| Tag := "message";
            Attrs := <["from" := AJID Fake.alice]> (<["id" := AString ""]>
                       (<["t" := AString "0"]> ∅));
            Content := CNil |} = inr e /\ MalformedMessage e).
Proof.
  split; [reflexivity|]. split.
  - eexists. split; reflexivity.
  - intros (e & H & _). vm_compute in H. discriminate H.
Qed.

(** ** Runs of the pipeline *)

Section Runs.
Context `{Ext : Externals}.

(** *** Observations and sequencing *)

Lemma dispatches_app (e1 e2 : list event) :
  dispatches (e1 ++ e2) = dispatches e1 ++ dispatches e2.
Proof. apply omap_app. Qed.

Lemma sends_app (e1 e2 : list event) : sends (e1 ++ e2) = sends e1 ++ sends e2.
Proof. apply omap_app. Qed.

Lemma acks_app (e1 e2 : list event) : acks (e1 ++ e2) = acks e1 ++ acks e2.
Proof. apply omap_app. Qed.

Lemma decrypt_attempts_app (e1 e2 : list event) :
  decrypt_attempts (e1 ++ e2) = decrypt_attempts e1 ++ decrypt_attempts e2.
Proof. apply omap_app. Qed.

Lemma retry_units_app (e1 e2 : list event) :
  retry_units (e1 ++ e2) = retry_units e1 ++ retry_units e2.
Proof. unfold retry_units. now rewrite sends_app, List.filter_app. Qed.

Lemma same_but_store_refl (c : Client) : same_but_store c c.
Proof. unfold same_but_store, with_store. now destruct c as [cp [] m]. Qed.

Lemma same_but_store_trans (c1 c2 c3 : Client) :
  same_but_store c1 c2 -> same_but_store c2 c3 -> same_but_store c1 c3.
Proof.
  unfold same_but_store. intros H12 H23. rewrite H23. rewrite H12. reflexivity.
Qed.

Lemma same_but_store_fields (c c' : Client) :
  same_but_store c c' ->
  CheckPadding c' = CheckPadding c /\
  messageRetries c' = messageRetries c /\
  SessionAccount (session c') = SessionAccount (session c) /\
  SessionID (session c') = SessionID (session c) /\
  RegistrationID (session c') = RegistrationID (session c) /\
  IdentityKeyPub (session c') = IdentityKeyPub (session c) /\
  SignedPreKey (session c') = SignedPreKey (session c).
Proof. intros ->. repeat split. Qed.

(** The run of [m ;; k] when [m] returns. *)
Lemma bind_done {A B} (m : M A) (k : A -> M B) (c : Client) (a : A) :
  result (m c) = Done a ->
  bind m k c = mkRun (result (k a (final (m c)))) (final (k a (final (m c))))
                     (events (m c) ++ events (k a (final (m c)))).
Proof. intros H. unfold bind. now rewrite H. Qed.

(** The run of [m ;; k] when [m] panics. *)
Lemma bind_crashed {A B} (m : M A) (k : A -> M B) (c : Client) (p : panic) :
  result (m c) = Crashed p ->
  bind m k c = mkRun (Crashed p) (final (m c)) (events (m c)).
Proof. intros H. unfold bind. now rewrite H. Qed.

(** *** Tame and quiet computations *)

Lemma quiet_ret {A} (a : A) : quiet (ret a).
Proof. intros c. simpl. repeat split. apply same_but_store_refl. Qed.

Lemma quiet_crash {A} (p : panic) : quiet (@crash _ A p).
Proof. intros c. simpl. repeat split. apply same_but_store_refl. Qed.

Lemma quiet_get : quiet get.
Proof. intros c. simpl. repeat split. apply same_but_store_refl. Qed.

Lemma quiet_log (l : log_line) : quiet (emit (ELog l)).
Proof. intros c. simpl. repeat split. apply same_but_store_refl. Qed.

Lemma quiet_set_store (st : SignalStore) : quiet (set_store st).
Proof. intros c. simpl. repeat split. Qed.

Lemma quiet_lift {A} (r : go_result A) : quiet (lift r).
Proof. destruct r; [apply quiet_ret | apply quiet_ret | apply quiet_crash]. Qed.

(** A quiet computation followed by tame ones is tame. *)
Lemma tame_bind {A B} (m : M A) (k : A -> M B) (d : outcome B -> list Message) :
  quiet m -> (forall a, tame (k a) d) -> (forall p, d (Crashed p) = []) ->
  tame (bind m k) d.
Proof.
  intros Hm Hk Hd c. destruct (Hm c) as (Hs & Hr & Ha & Hc & Hdm).
  destruct (result (m c)) as [a|p] eqn:E.
  - rewrite (bind_done m k c a E). simpl.
    destruct (Hk a (final (m c))) as (Hs' & Hr' & Ha' & Hc' & Hd').
    rewrite retry_units_app, acks_app, decrypt_attempts_app, dispatches_app.
    rewrite Hr, Hr', Ha, Ha', Hc, Hc', Hdm, Hd'. repeat split.
    eapply same_but_store_trans; eassumption.
  - rewrite (bind_crashed m k c p E). simpl. rewrite Hd. now repeat split.
Qed.

Lemma quiet_bind {A B} (m : M A) (k : A -> M B) :
  quiet m -> (forall a, quiet (k a)) -> quiet (bind m k).
Proof. intros Hm Hk. apply tame_bind; auto. Qed.

Lemma quiet_sendNode (n : Node) : is_retry_unit n = false -> quiet (sendNode n).
Proof.
  intros H c. unfold sendNode, bind, emit, ret, retry_units. simpl.
  rewrite H. repeat split. apply same_but_store_refl.
Qed.

(** *** The dispatcher *)

Lemma quiet_sendProtocolMessageReceipt (id msgType : string) :
  msgType <> "retry" -> quiet (sendProtocolMessageReceipt id msgType).
Proof.
  intros Hne. unfold sendProtocolMessageReceipt.
  destruct (len (list_ascii_of_string id) =? 0)%Z; [apply quiet_ret|].
  apply quiet_bind; [apply quiet_get|]. intros c.
  apply quiet_bind.
  - apply quiet_sendNode. unfold is_retry_unit. simpl.
    rewrite lookup_insert_ne by discriminate. rewrite lookup_insert_eq.
    apply String.eqb_neq in Hne. now rewrite Hne.
  - intros []; [apply quiet_log | apply quiet_ret].
Qed.

Lemma quiet_handleSenderKeyDistributionMessage (chat from : FullJID) (raw : bytes) :
  quiet (handleSenderKeyDistributionMessage chat from raw).
Proof.
  unfold handleSenderKeyDistributionMessage.
  destruct (NewSenderKeyDistributionMessageFromBytes raw); [|apply quiet_log].
  apply quiet_bind; [apply quiet_get|]. intros c. apply quiet_set_store.
Qed.

Lemma quiet_handleHistorySyncNotification (notif : HistorySyncNotification) :
  quiet (handleHistorySyncNotification notif).
Proof.
  unfold handleHistorySyncNotification.
  destruct (downloadMedia notif) as [data|]; [|apply quiet_log].
  destruct (zlibNewReader data) as [reader|]; [|apply quiet_log].
  destruct (ReadAll reader) as [rawData|]; [|apply quiet_log].
  destruct (UnmarshalHistorySync rawData); apply quiet_log.
Qed.

Lemma quiet_handleProtocolMessage (info : MessageInfo) (msg : ProtoMessage) :
  quiet (handleProtocolMessage info msg).
Proof.
  unfold handleProtocolMessage. apply quiet_bind.
  - destruct (GetHistorySyncNotification msg); [|apply quiet_ret].
    apply quiet_bind; [apply quiet_handleHistorySyncNotification|].
    intros _. now apply quiet_sendProtocolMessageReceipt.
  - intros _. destruct (String.eqb (Category info) "peer"); [|apply quiet_ret].
    now apply quiet_sendProtocolMessageReceipt.
Qed.

(** What [handleDecryptedMessage] does: it dispatches the message exactly
    when it returns, and is otherwise quiet. *)
Lemma tame_handleDecryptedMessage (info : MessageInfo) (msg : ProtoMessage) :
  tame (handleDecryptedMessage info msg)
       (fun o => match o with
                 | Done _ => [{| Info := info; Msg := msg |}]
                 | Crashed _ => []
                 end).
Proof.
  unfold handleDecryptedMessage.
  apply tame_bind; [apply quiet_log| |reflexivity]. intros _.
  apply tame_bind; [| |reflexivity].
  - destruct (GetSenderKeyDistributionMessage msg); [|apply quiet_ret].
    destruct (Chat info); [|apply quiet_crash].
    apply quiet_handleSenderKeyDistributionMessage.
  - intros _. apply tame_bind; [| |reflexivity].
    + destruct (GetProtocolMessage msg); [|apply quiet_ret].
      apply quiet_handleProtocolMessage.
    + intros _ c. simpl. repeat split. apply same_but_store_refl.
Qed.

(** The run of [handleDecryptedMessage] on a sender-key distribution
    outside a chat: the message is printed, then [*info.Chat] panics. *)
Lemma handleDecryptedMessage_nil_chat_run
    (info : MessageInfo) (msg : ProtoMessage) (raw : bytes) (c : Client) :
  GetSenderKeyDistributionMessage msg = Some raw ->
  Chat info = None ->
  handleDecryptedMessage info msg c
    = mkRun (Crashed NilDereference) c
            [ELog (LogReceived {| Info := info; Msg := msg |})].
Proof.
  intros Hskdm Hchat. unfold handleDecryptedMessage, bind, emit, crash. simpl.
  rewrite Hskdm, Hchat. reflexivity.
Qed.

(** C10.  When the decrypted payload carries a sender-key distribution
    and the message info has no chat (a direct chat), handling the message
    panics on [*info.Chat], a nil-pointer dereference, after printing the
    message: nothing reaches the event sink and the client is left as it
    was. *)
Theorem handleDecryptedMessage_nil_chat
    (info : MessageInfo) (msg : ProtoMessage) (raw : bytes) (c : Client) :
  GetSenderKeyDistributionMessage msg = Some raw ->
  Chat info = None ->
  result (handleDecryptedMessage info msg c) = Crashed NilDereference /\
  dispatches (events (handleDecryptedMessage info msg c)) = [] /\
  final (handleDecryptedMessage info msg c) = c.
Proof.
  intros Hskdm Hchat.
  rewrite (handleDecryptedMessage_nil_chat_run info msg raw c Hskdm Hchat).
  repeat split.
Qed.

(** *** Computations that always return *)

Lemma returns_ret {A} (a : A) : returns (ret a).
Proof. intros c. now exists a. Qed.

Lemma returns_get : returns get.
Proof. intros c. now exists c. Qed.

Lemma returns_emit (e : event) : returns (emit e).
Proof. intros c. now exists tt. Qed.

Lemma returns_set_store (st : SignalStore) : returns (set_store st).
Proof. intros c. now exists tt. Qed.

Lemma returns_set_retries (m : gmap string Z) : returns (set_retries m).
Proof. intros c. now exists tt. Qed.

Lemma returns_bind {A B} (m : M A) (k : A -> M B) :
  returns m -> (forall a, returns (k a)) -> returns (bind m k).
Proof.
  intros Hm Hk c. destruct (Hm c) as [a Ha].
  destruct (Hk a (final (m c))) as [b Hb].
  exists b. now rewrite (bind_done m k c a Ha).
Qed.

Lemma returns_sendNode (n : Node) : returns (sendNode n).
Proof. apply returns_bind; [apply returns_emit|]. intros _. apply returns_ret. Qed.

Lemma returns_sendProtocolMessageReceipt (id msgType : string) :
  returns (sendProtocolMessageReceipt id msgType).
Proof.
  unfold sendProtocolMessageReceipt.
  destruct (len (list_ascii_of_string id) =? 0)%Z; [apply returns_ret|].
  apply returns_bind; [apply returns_get|]. intros c.
  apply returns_bind; [apply returns_sendNode|].
  intros []; [apply returns_emit | apply returns_ret].
Qed.

Lemma returns_handleProtocolMessage (info : MessageInfo) (msg : ProtoMessage) :
  returns (handleProtocolMessage info msg).
Proof.
  unfold handleProtocolMessage. apply returns_bind.
  - destruct (GetHistorySyncNotification msg) as [notif|]; [|apply returns_ret].
    apply returns_bind; [|intros _; apply returns_sendProtocolMessageReceipt].
    unfold handleHistorySyncNotification.
    destruct (downloadMedia notif) as [data|]; [|apply returns_emit].
    destruct (zlibNewReader data) as [reader|]; [|apply returns_emit].
    destruct (ReadAll reader) as [rawData|]; [|apply returns_emit].
    destruct (UnmarshalHistorySync rawData); apply returns_emit.
  - intros _. destruct (String.eqb (Category info) "peer");
      [apply returns_sendProtocolMessageReceipt | apply returns_ret].
Qed.

(** In a chat, or without a sender-key distribution, the message is
    handled to the end (and so dispatched). *)
Lemma returns_handleDecryptedMessage (info : MessageInfo) (msg : ProtoMessage) :
  (GetSenderKeyDistributionMessage msg = None \/ Chat info <> None) ->
  returns (handleDecryptedMessage info msg).
Proof.
  intros H. unfold handleDecryptedMessage.
  apply returns_bind; [apply returns_emit|]. intros _.
  apply returns_bind.
  - destruct (GetSenderKeyDistributionMessage msg) as [raw|]; [|apply returns_ret].
    destruct (Chat info) as [chat|]; [|destruct H as [H|H]; [discriminate|now destruct H]].
    unfold handleSenderKeyDistributionMessage.
    destruct (NewSenderKeyDistributionMessageFromBytes raw); [|apply returns_emit].
    apply returns_bind; [apply returns_get|]. intros c. apply returns_set_store.
  - intros _. apply returns_bind.
    + destruct (GetProtocolMessage msg);
        [apply returns_handleProtocolMessage | apply returns_ret].
    + intros _. apply returns_emit.
Qed.

(** *** The retry-receipt manager *)

Lemma retryAttrs_type (node : Node) (id : string) :
  retryAttrs node id !! "type" = Some (AString "retry").
Proof.
  unfold retryAttrs.
  destruct (Attrs node !! "participant"), (Attrs node !! "recipient");
    repeat (rewrite lookup_insert_ne by discriminate);
    apply lookup_insert_eq.
Qed.

Lemma is_retry_unit_retryPayload (node : Node) (id : string) (n : Z) (s : Session) :
  is_retry_unit (retryPayload node id n s) = true.
Proof. unfold is_retry_unit. simpl. now rewrite retryAttrs_type. Qed.

Lemma is_retry_unit_appendChild (payload child : Node) :
  is_retry_unit (appendChild payload child) = is_retry_unit payload.
Proof. reflexivity. Qed.

(** A call for one prekey yields one prekey. *)
Lemma GetOrGenPreKeys_one (st : SignalStore) :
  exists key0, fst (GetOrGenPreKeys 1 st) = [key0].
Proof.
  pose proof (GetOrGenPreKeys_len 1 st ltac:(lia)) as H. unfold len in H.
  destruct (fst (GetOrGenPreKeys 1 st)) as [|k [|k' l]]; simpl in H; try lia.
  now exists k.
Qed.

Lemma sendRetryReceipt_effects (node : Node) (c : Client) :
  result (sendRetryReceipt node c) = Done tt /\
  messageRetries (final (sendRetryReceipt node c))
    = <[retry_id node := (retry_count c (retry_id node) + 1)%Z]> (messageRetries c) /\
  sends (events (sendRetryReceipt node c)) = retry_sends node c /\
  dispatches (events (sendRetryReceipt node c)) = [] /\
  acks (events (sendRetryReceipt node c)) = [] /\
  decrypt_attempts (events (sendRetryReceipt node c)) = [].
Proof.
  remember (sendRetryReceipt node c) as r eqn:Hr.
  unfold sendRetryReceipt in Hr.
  unfold retry_sends, retry_id, retry_count.
  set (id := default "" (attr_string (Attrs node) "id")) in *.
  set (n := (default 0 (messageRetries c !! id) + 1)%Z) in *.
  unfold bind at 1 in Hr. cbn [get result final events] in Hr.
  unfold bind at 1 in Hr.
  cbn [set_retries result final events session messageRetries] in Hr.
  fold n in Hr.
  destruct (1 <? n)%Z.
  - destruct (GetOrGenPreKeys_one (Store (session c))) as [key0 Hk].
    destruct (GetOrGenPreKeys 1 (Store (session c))) as [keys st].
    simpl in Hk. subst keys.
    unfold bind at 1 in Hr.
    cbn [set_store result final events session messageRetries with_store
         SessionAccount] in Hr.
    destruct (Marshal (SessionAccount (session c))) as [di|].
    + change (index [key0] 0) with (Some key0) in Hr.
      unfold bind, sendNode, emit, ret in Hr. cbn [result final events] in Hr.
      match type of Hr with context [sendNodeFails ?x] => destruct (sendNodeFails x) end;
        subst r; cbn; repeat split.
    + subst r. cbn. repeat split.
  - unfold bind, sendNode, emit, ret in Hr. cbn [result final events] in Hr.
    match type of Hr with context [sendNodeFails ?x] => destruct (sendNodeFails x) end;
      subst r; cbn; repeat split.
Qed.

Lemma retry_sends_first (node : Node) (c : Client) :
  (retry_count c (retry_id node) <= 0)%Z ->
  retry_sends node c
    = [retryPayload node (retry_id node) (retry_count c (retry_id node) + 1) (session c)].
Proof.
  intros H. unfold retry_sends.
  destruct (Z.ltb_spec 1 (retry_count c (retry_id node) + 1)); [lia|reflexivity].
Qed.

Lemma retry_sends_bundle (node : Node) (c : Client) (di : bytes) :
  (0 < retry_count c (retry_id node))%Z ->
  Marshal (SessionAccount (session c)) = Some di ->
  exists key0,
    fst (GetOrGenPreKeys 1 (Store (session c))) = [key0] /\
    retry_sends node c
      = [appendChild
           (retryPayload node (retry_id node) (retry_count c (retry_id node) + 1) (session c))
           (keysChild (session c) key0 di)].
Proof.
  intros H Hm. destruct (GetOrGenPreKeys_one (Store (session c))) as [key0 Hk].
  exists key0. split; [exact Hk|]. unfold retry_sends. rewrite Hm, Hk.
  destruct (Z.ltb_spec 1 (retry_count c (retry_id node) + 1)); [reflexivity|lia].
Qed.

Lemma retry_sends_none (node : Node) (c : Client) :
  (0 < retry_count c (retry_id node))%Z ->
  Marshal (SessionAccount (session c)) = None ->
  retry_sends node c = [].
Proof.
  intros H Hm. unfold retry_sends. rewrite Hm.
  destruct (Z.ltb_spec 1 (retry_count c (retry_id node) + 1)); [reflexivity|lia].
Qed.

(** Whatever [sendRetryReceipt] sends is a retry unit. *)
Lemma retry_sends_units (node : Node) (c : Client) :
  List.filter is_retry_unit (retry_sends node c) = retry_sends node c.
Proof.
  unfold retry_sends.
  destruct (1 <? retry_count c (retry_id node) + 1)%Z.
  - destruct (Marshal (SessionAccount (session c))); [|reflexivity].
    destruct (fst (GetOrGenPreKeys 1 (Store (session c)))); [reflexivity|].
    simpl. now rewrite is_retry_unit_appendChild, is_retry_unit_retryPayload.
  - simpl. now rewrite is_retry_unit_retryPayload.
Qed.

Lemma keys_of_retryPayload (node : Node) (id : string) (n : Z) (s : Session) :
  GetChildrenByTag (retryPayload node id n s) "keys" = [].
Proof. reflexivity. Qed.

Lemma keys_of_bundle (node : Node) (id : string) (n : Z) (s : Session)
    (key0 : PreKey) (di : bytes) :
  GetChildrenByTag (appendChild (retryPayload node id n s) (keysChild s key0 di)) "keys"
    = [keysChild s key0 di].
Proof. reflexivity. Qed.

(** C7, as amended.  For the id of a unit: when no retry is yet counted
    for it, [sendRetryReceipt] sends one retry unit with no [keys] child.
    When a retry is already counted (the new retry count exceeds 1) and the
    account serialises to [di], it sends one retry unit with exactly one
    [keys] child, whose children are, in order: the curve-type marker
    byte, the identity public key, the one prekey that
    [GetOrGenPreKeys(1)] returns, the signed prekey, and [di].  When a
    retry is already counted and the account does not serialise, nothing
    is sent. *)
Theorem retry_escalation (node : Node) (c : Client) :
  (retry_count c (retry_id node) = 0%Z ->
     exists u, sends (events (sendRetryReceipt node c)) = [u] /\
               is_retry_unit u = true /\
               GetChildrenByTag u "keys" = []) /\
  ((0 < retry_count c (retry_id node))%Z ->
     forall di, Marshal (SessionAccount (session c)) = Some di ->
     exists u keys key0,
       sends (events (sendRetryReceipt node c)) = [u] /\
       is_retry_unit u = true /\
       fst (GetOrGenPreKeys 1 (Store (session c))) = [key0] /\
       GetChildrenByTag u "keys" = [keys] /\
       Content keys = CNodes
         [ {| Tag := "type"; Attrs := ∅; Content := CBytes [DjbType] |};
           {| Tag := "identity"; Attrs := ∅;
              Content := CBytes (IdentityKeyPub (session c)) |};
           preKeyToNode key0;
           preKeyToNode (SignedPreKey (session c));
           {| Tag := "device-identity"; Attrs := ∅; Content := CBytes di |} ]) /\
  ((0 < retry_count c (retry_id node))%Z ->
     Marshal (SessionAccount (session c)) = None ->
     sends (events (sendRetryReceipt node c)) = []).
Proof.
  destruct (sendRetryReceipt_effects node c) as (_ & _ & Hs & _).
  rewrite Hs. split; [|split].
  - intros H0. rewrite retry_sends_first by lia. eexists. split; [reflexivity|].
    split; [apply is_retry_unit_retryPayload | apply keys_of_retryPayload].
  - intros Hpos di Hm.
    destruct (retry_sends_bundle node c di Hpos Hm) as (key0 & Hk & ->).
    do 3 eexists. split; [reflexivity|].
    split; [now rewrite is_retry_unit_appendChild, is_retry_unit_retryPayload|].
    split; [exact Hk|]. split; [apply keys_of_bundle|reflexivity].
  - intros Hpos Hm. now apply retry_sends_none.
Qed.

(** *** The decrypt calls *)

(** A decrypt attempt followed by quiet code: one attempt, nothing else
    observable. *)
Lemma attempt_then_quiet {A} (t : string) (b : bytes) (m : M A) (c : Client) :
  quiet m ->
  same_but_store c (final (bind (emit (EDecrypt t b)) (fun _ => m) c)) /\
  retry_units (events (bind (emit (EDecrypt t b)) (fun _ => m) c)) = [] /\
  acks (events (bind (emit (EDecrypt t b)) (fun _ => m) c)) = [] /\
  dispatches (events (bind (emit (EDecrypt t b)) (fun _ => m) c)) = [] /\
  decrypt_attempts (events (bind (emit (EDecrypt t b)) (fun _ => m) c)) = [(t, b)].
Proof.
  intros Hq. destruct (Hq c) as (Hs & Hr & Ha & Hc & Hd).
  rewrite (bind_done _ _ c tt) by reflexivity. cbn [result final events emit].
  change ([EDecrypt t b] ++ events (m c)) with (EDecrypt t b :: events (m c)).
  change (retry_units (EDecrypt t b :: events (m c))) with (retry_units (events (m c))).
  change (acks (EDecrypt t b :: events (m c))) with (acks (events (m c))).
  change (dispatches (EDecrypt t b :: events (m c))) with (dispatches (events (m c))).
  change (decrypt_attempts (EDecrypt t b :: events (m c)))
    with ((t, b) :: decrypt_attempts (events (m c))).
  rewrite Hc. now repeat split.
Qed.

Lemma quiet_unpad (cp : bool) (plaintext : bytes) : quiet (lift (unpadMessage cp plaintext)).
Proof. apply quiet_lift. Qed.

Lemma decryptDM_effects (child : Node) (from : FullJID) (isPreKey : bool) (c : Client) :
  same_but_store c (final (decryptDM child from isPreKey c)) /\
  retry_units (events (decryptDM child from isPreKey c)) = [] /\
  acks (events (decryptDM child from isPreKey c)) = [] /\
  dispatches (events (decryptDM child from isPreKey c)) = [] /\
  decrypt_attempts (events (decryptDM child from isPreKey c))
    = [(if isPreKey then "pkmsg" else "msg", content_bytes child)].
Proof.
  unfold decryptDM. apply attempt_then_quiet.
  destruct isPreKey.
  - destruct (NewPreKeySignalMessageFromBytes (content_bytes child)) as [m|];
      [|apply quiet_ret].
    apply quiet_bind; [apply quiet_get|]. intros c0.
    destruct (DecryptMessageReturnKey (Store (session c0)) from m) as [r st].
    apply quiet_bind; [apply quiet_set_store|]. intros _.
    destruct r; [apply quiet_unpad | apply quiet_ret].
  - destruct (NewSignalMessageFromBytes (content_bytes child)) as [m|];
      [|apply quiet_ret].
    apply quiet_bind; [apply quiet_get|]. intros c0.
    destruct (Decrypt (Store (session c0)) from m) as [r st].
    apply quiet_bind; [apply quiet_set_store|]. intros _.
    destruct r; [apply quiet_unpad | apply quiet_ret].
Qed.

Lemma decryptGroupMsg_effects (child : Node) (from chat : FullJID) (c : Client) :
  same_but_store c (final (decryptGroupMsg child from chat c)) /\
  retry_units (events (decryptGroupMsg child from chat c)) = [] /\
  acks (events (decryptGroupMsg child from chat c)) = [] /\
  dispatches (events (decryptGroupMsg child from chat c)) = [] /\
  decrypt_attempts (events (decryptGroupMsg child from chat c))
    = [("skmsg", content_bytes child)].
Proof.
  unfold decryptGroupMsg. apply attempt_then_quiet.
  destruct (NewSenderKeyMessageFromBytes (content_bytes child)) as [m|];
    [|apply quiet_ret].
  apply quiet_bind; [apply quiet_get|]. intros c0.
  destruct (GroupDecrypt (Store (session c0)) chat from m) as [r st].
  apply quiet_bind; [apply quiet_set_store|]. intros _.
  destruct r; [apply quiet_unpad | apply quiet_ret].
Qed.

(** Whichever decrypt call the loop makes for a sub-unit, it is one
    attempt and nothing else observable. *)
Lemma decrypt_call_effects (info : MessageInfo) (child : Node)
    (d : M (bytes + go_error)) (c : Client) :
  decrypt_call info child = Some d ->
  same_but_store c (final (d c)) /\
  retry_units (events (d c)) = [] /\
  acks (events (d c)) = [] /\
  dispatches (events (d c)) = [] /\
  length (decrypt_attempts (events (d c))) = 1%nat.
Proof.
  unfold decrypt_call. intros H.
  destruct (String.eqb (Tag child) "enc"); [|discriminate].
  destruct (attr_string (Attrs child) "type") as [encType|]; [|discriminate].
  destruct (String.eqb encType "pkmsg" || String.eqb encType "msg").
  - inversion H; subst d.
    destruct (decryptDM_effects child (From info) (String.eqb encType "pkmsg") c)
      as (? & ? & ? & ? & Hc).
    rewrite Hc. now repeat split.
  - destruct (Chat info) as [chat|]; [|discriminate].
    destruct (String.eqb encType "skmsg"); [|discriminate].
    inversion H; subst d.
    destruct (decryptGroupMsg_effects child (From info) chat c) as (? & ? & ? & ? & Hc).
    rewrite Hc. now repeat split.
Qed.

Lemma decrypt_call_enc (info : MessageInfo) (child : Node) (d : M (bytes + go_error)) :
  decrypt_call info child = Some d -> Tag child = "enc".
Proof.
  unfold decrypt_call. intros H.
  destruct (String.eqb (Tag child) "enc") eqn:E; [|discriminate].
  now apply String.eqb_eq.
Qed.

(** An iteration that makes a decrypt call is that call followed by the
    handling of its result. *)
Lemma decryptChild_call (info : MessageInfo) (node child : Node) (handled : bool)
    (d : M (bytes + go_error)) :
  decrypt_call info child = Some d ->
  decryptChild info node child handled = bind d (handleDecryptResult info node handled).
Proof.
  unfold decrypt_call, decryptChild. intros H.
  destruct (String.eqb (Tag child) "enc"); [|discriminate]. simpl.
  destruct (attr_string (Attrs child) "type") as [encType|]; [|discriminate].
  destruct (String.eqb encType "pkmsg" || String.eqb encType "msg").
  - now inversion H.
  - destruct (Chat info) as [chat|]; [|discriminate].
    destruct (String.eqb encType "skmsg"); [|discriminate].
    now inversion H.
Qed.

(** *** The loop *)

(** The loop over [l1 ++ l2]: the loop over [l1], then, unless it
    returned or panicked, the loop over [l2]. *)
Lemma decryptLoop_app (info : MessageInfo) (node : Node) (l1 l2 : list Node)
    (handled : bool) (c : Client) :
  decryptLoop info node (l1 ++ l2) handled c
  = match result (decryptLoop info node l1 handled c) with
    | Done (Next h) =>
        mkRun (result (decryptLoop info node l2 h (final (decryptLoop info node l1 handled c))))
              (final (decryptLoop info node l2 h (final (decryptLoop info node l1 handled c))))
              (events (decryptLoop info node l1 handled c) ++
               events (decryptLoop info node l2 h (final (decryptLoop info node l1 handled c))))
    | _ => decryptLoop info node l1 handled c
    end.
Proof.
  revert handled c. induction l1 as [|ch l1 IH]; intros handled c.
  - simpl. now destruct (decryptLoop info node l2 handled c).
  - simpl. unfold bind.
    destruct (result (decryptChild info node ch handled c)) as [[h|]|p] eqn:E.
    + rewrite IH.
      destruct (decryptLoop info node l1 h (final (decryptChild info node ch handled c)))
        as [[[h'|]|p'] c' e']; simpl; rewrite ?app_assoc; reflexivity.
    + reflexivity.
    + reflexivity.
Qed.

(** C9.  For an [enc] sub-unit whose [type] is a string other than
    [pkmsg], [msg] and [skmsg]: its iteration only logs the unhandled
    type and goes on to the next child with the [handled] flag and the
    client unchanged (no decrypt attempt, no retry, nothing sent); and in
    a unit where it stands between the sub-units [pre] and [post], the
    loop runs [pre], logs, and runs [post] from where [pre] left off. *)
Theorem unknown_enc_type_skipped
    (info : MessageInfo) (node child : Node) (encType : string) :
  Tag child = "enc" ->
  attr_string (Attrs child) "type" = Some encType ->
  encType <> "pkmsg" -> encType <> "msg" -> encType <> "skmsg" ->
  (forall handled c,
     decryptChild info node child handled c
       = mkRun (Done (Next handled)) c [ELog (LogUnhandled encType info)]) /\
  (forall pre post handled c,
     decryptLoop info node (pre ++ child :: post) handled c
     = match result (decryptLoop info node pre handled c) with
       | Done (Next h) =>
           mkRun
             (result (decryptLoop info node post h
                        (final (decryptLoop info node pre handled c))))
             (final (decryptLoop info node post h
                       (final (decryptLoop info node pre handled c))))
             (events (decryptLoop info node pre handled c) ++
              ELog (LogUnhandled encType info) ::
              events (decryptLoop info node post h
                        (final (decryptLoop info node pre handled c))))
       | _ => decryptLoop info node pre handled c
       end).
Proof.
  intros Htag Htype Hpk Hmsg Hsk.
  assert (Hchild : forall handled c,
            decryptChild info node child handled c
              = mkRun (Done (Next handled)) c [ELog (LogUnhandled encType info)]).
  { intros handled c. unfold decryptChild. rewrite Htag, Htype. simpl.
    apply String.eqb_neq in Hpk, Hmsg, Hsk. rewrite Hpk, Hmsg, Hsk. simpl.
    now destruct (Chat info). }
  split; [exact Hchild|].
  intros pre post handled c. rewrite decryptLoop_app.
  destruct (result (decryptLoop info node pre handled c)) as [[h|]|p]; try reflexivity.
  simpl. unfold bind. rewrite Hchild. reflexivity.
Qed.

(** *** Units whose sub-units are all unavailable *)

Lemma filter_all {A} (P : A -> Prop) `{!forall x, Decision (P x)} (l : list A) :
  Forall P l -> filter P l = l.
Proof.
  induction 1 as [|x l Hx _ IH]; [reflexivity|].
  rewrite filter_cons_True by assumption. now rewrite IH.
Qed.

Lemma filter_shorter {A} (P : A -> Prop) `{!forall x, Decision (P x)} (l : list A) :
  ~ Forall P l -> (length (filter P l) < length l)%nat.
Proof.
  induction l as [|x l IH]; intros Hn.
  - destruct Hn. constructor.
  - destruct (decide (P x)) as [Hx|Hx].
    + rewrite filter_cons_True by assumption. simpl.
      apply ->Nat.succ_lt_mono. apply IH. intros Hl. apply Hn. now constructor.
    + rewrite filter_cons_False by assumption. simpl.
      pose proof (length_filter P l). lia.
Qed.

Lemma decryptMessages_unavailable (info : MessageInfo) (node : Node) :
  Forall (fun ch => Tag ch = "unavailable") (GetChildren node) ->
  decryptMessages info node = sendRetryReceipt node.
Proof.
  intros H. unfold decryptMessages, GetChildrenByTag.
  rewrite filter_all by assumption. now rewrite Z.eqb_refl.
Qed.

Lemma retry_count_after (node : Node) (c : Client) :
  retry_count (final (sendRetryReceipt node c)) (retry_id node)
    = (retry_count c (retry_id node) + 1)%Z /\
  forall id, id <> retry_id node ->
    retry_count (final (sendRetryReceipt node c)) id = retry_count c id.
Proof.
  destruct (sendRetryReceipt_effects node c) as (_ & Hm & _).
  unfold retry_count at 1 3. rewrite Hm. split.
  - now rewrite lookup_insert_eq.
  - intros id Hne. now rewrite lookup_insert_ne by congruence.
Qed.

(** C8, as amended.  For a unit all of whose sub-units are tagged
    [unavailable]: no decryption is attempted and nothing is dispatched;
    the retry counter of the unit's id goes up by exactly 1 and no other
    counter changes; exactly one node is sent, a retry unit, when no retry
    was counted for the id before or the account serialises; and nothing
    is sent when a retry was already counted and the account does not
    serialise. *)
Theorem all_unavailable_retry (info : MessageInfo) (node : Node) (c : Client) :
  Forall (fun ch => Tag ch = "unavailable") (GetChildren node) ->
  decrypt_attempts (events (decryptMessages info node c)) = [] /\
  dispatches (events (decryptMessages info node c)) = [] /\
  retry_count (final (decryptMessages info node c)) (retry_id node)
    = (retry_count c (retry_id node) + 1)%Z /\
  (forall id, id <> retry_id node ->
     retry_count (final (decryptMessages info node c)) id = retry_count c id) /\
  ((retry_count c (retry_id node) <= 0)%Z \/
   Marshal (SessionAccount (session c)) <> None ->
     exists u, sends (events (decryptMessages info node c)) = [u] /\
               is_retry_unit u = true) /\
  ((0 < retry_count c (retry_id node))%Z ->
   Marshal (SessionAccount (session c)) = None ->
     sends (events (decryptMessages info node c)) = []).
Proof.
  intros Hall. rewrite (decryptMessages_unavailable info node Hall).
  destruct (sendRetryReceipt_effects node c) as (_ & _ & Hs & Hd & _ & Hc).
  destruct (retry_count_after node c) as [Hn Ho].
  rewrite Hs. repeat split; try assumption.
  - intros Hok.
    destruct (Z.le_gt_cases (retry_count c (retry_id node)) 0) as [Hle|Hgt].
    + rewrite retry_sends_first by assumption. eexists. split; [reflexivity|].
      apply is_retry_unit_retryPayload.
    + destruct Hok as [Hle|Hm]; [lia|].
      destruct (Marshal (SessionAccount (session c))) as [di|] eqn:E; [|now destruct Hm].
      destruct (retry_sends_bundle node c di Hgt E) as (key0 & _ & ->).
      eexists. split; [reflexivity|].
      now rewrite is_retry_unit_appendChild, is_retry_unit_retryPayload.
  - intros Hpos Hm. now apply retry_sends_none.
Qed.

(** *** Units that hit a decrypt failure *)

(** The iteration of a sub-unit that decrypts, decodes and is handled to
    the end: the decrypt call, then the handling; on to the next child
    with [handled] set. *)
Lemma decryptChild_dispatched (info : MessageInfo) (node child : Node) (handled : bool)
    (d : M (bytes + go_error)) (c : Client) (plain : bytes) (msg : ProtoMessage) :
  decrypt_call info child = Some d ->
  result (d c) = Done (inl plain) ->
  Unmarshal plain = Some msg ->
  result (handleDecryptedMessage info msg (final (d c))) = Done tt ->
  decryptChild info node child handled c
    = mkRun (Done (Next true))
            (final (handleDecryptedMessage info msg (final (d c))))
            (events (d c) ++ events (handleDecryptedMessage info msg (final (d c)))).
Proof.
  intros Hd Hr Hu Hh. rewrite (decryptChild_call info node child handled d Hd).
  rewrite (bind_done _ _ c _ Hr). unfold handleDecryptResult. rewrite Hu.
  rewrite (bind_done _ _ (final (d c)) _ Hh). cbn [ret result final events].
  now rewrite app_nil_r.
Qed.

(** The iteration of a sub-unit whose decrypt call fails: the call, the
    warning, the retry; [decryptMessages] returns. *)
Lemma decryptChild_failed (info : MessageInfo) (node child : Node) (handled : bool)
    (d : M (bytes + go_error)) (c : Client) (err : go_error) :
  decrypt_call info child = Some d ->
  result (d c) = Done (inr err) ->
  decryptChild info node child handled c
    = mkRun (Done Return)
            (final (sendRetryReceipt node (final (d c))))
            (events (d c) ++
             ELog (LogDecryptError info err) ::
             events (sendRetryReceipt node (final (d c)))).
Proof.
  intros Hd Hr. rewrite (decryptChild_call info node child handled d Hd).
  rewrite (bind_done _ _ c _ Hr). unfold handleDecryptResult.
  rewrite (bind_done _ _ (final (d c)) tt) by reflexivity.
  cbn [emit result final events].
  destruct (sendRetryReceipt_effects node (final (d c))) as (Hres & _).
  rewrite (bind_done _ _ (final (d c)) tt Hres). cbn [ret result final events].
  now rewrite app_nil_r.
Qed.

(** The panic of the dispatcher unwinds the iteration, and with it
    [decryptMessages]: a sub-unit that decrypts to a sender-key
    distribution in a direct chat crashes the processing of its unit. *)
Lemma decryptChild_nil_chat (info : MessageInfo) (node child : Node) (handled : bool)
    (d : M (bytes + go_error)) (c : Client) (plain raw : bytes) (msg : ProtoMessage) :
  decrypt_call info child = Some d ->
  result (d c) = Done (inl plain) ->
  Unmarshal plain = Some msg ->
  GetSenderKeyDistributionMessage msg = Some raw ->
  Chat info = None ->
  result (decryptChild info node child handled c) = Crashed NilDereference /\
  dispatches (events (decryptChild info node child handled c)) = [].
Proof.
  intros Hd Hr Hu Hskdm Hchat.
  rewrite (decryptChild_call info node child handled d Hd).
  rewrite (bind_done _ _ c _ Hr). unfold handleDecryptResult. rewrite Hu.
  pose proof (handleDecryptedMessage_nil_chat_run info msg raw (final (d c)) Hskdm Hchat)
    as Hrun.
  rewrite (bind_crashed _ _ (final (d c)) NilDereference) by (now rewrite Hrun).
  rewrite Hrun. cbn [result final events].
  destruct (decrypt_call_effects info child d c Hd) as (_ & _ & _ & Hdi & _).
  rewrite dispatches_app, Hdi. now split.
Qed.

(** C5, as amended.  For a unit whose first sub-unit decrypts, decodes
    and is handled to the end, and whose second sub-unit fails to decrypt:
    the dispatcher is invoked once, for the first sub-unit; exactly two
    decrypt attempts are made, so no later sub-unit is touched; no ack is
    sent; the retry counter of the unit's id goes up by exactly 1; exactly
    one retry unit is sent when no retry was counted for the id before or
    the account serialises, and none otherwise. *)
Theorem batch_abort (info : MessageInfo) (node s1 s2 : Node) (rest : list Node)
    (d1 d2 : M (bytes + go_error)) (plain1 : bytes) (msg1 : ProtoMessage)
    (err : go_error) (c : Client) :
  GetChildren node = s1 :: s2 :: rest ->
  decrypt_call info s1 = Some d1 ->
  result (d1 c) = Done (inl plain1) ->
  Unmarshal plain1 = Some msg1 ->
  result (handleDecryptedMessage info msg1 (final (d1 c))) = Done tt ->
  decrypt_call info s2 = Some d2 ->
  result (d2 (final (handleDecryptedMessage info msg1 (final (d1 c))))) = Done (inr err) ->
  result (decryptMessages info node c) = Done tt /\
  dispatches (events (decryptMessages info node c)) = [{| Info := info; Msg := msg1 |}] /\
  length (decrypt_attempts (events (decryptMessages info node c))) = 2%nat /\
  acks (events (decryptMessages info node c)) = [] /\
  retry_count (final (decryptMessages info node c)) (retry_id node)
    = (retry_count c (retry_id node) + 1)%Z /\
  ((retry_count c (retry_id node) <= 0)%Z \/
   Marshal (SessionAccount (session c)) <> None ->
     length (retry_units (events (decryptMessages info node c))) = 1%nat) /\
  ((0 < retry_count c (retry_id node))%Z ->
   Marshal (SessionAccount (session c)) = None ->
     retry_units (events (decryptMessages info node c)) = []).
Proof.
  intros Hk Hd1 Hr1 Hu1 Hh1 Hd2 Hr2.
  set (c1 := final (d1 c)) in *.
  set (H := handleDecryptedMessage info msg1 c1) in *.
  set (c2 := final (d2 (final H))).
  set (R := sendRetryReceipt node c2).
  (* the run *)
  assert (Hrun : decryptMessages info node c
            = mkRun (Done tt) (final R)
                ([ELog (LogDecrypting (len (GetChildren node)) info)] ++
                 (events (d1 c) ++ events H) ++
                 (events (d2 (final H)) ++ [ELog (LogDecryptError info err)] ++ events R))).
  { unfold decryptMessages.
    assert (Hne : (len (GetChildrenByTag node "unavailable") =? len (GetChildren node))%Z
                  = false).
    { apply Z.eqb_neq. unfold GetChildrenByTag, len.
      assert (Hlt : (length (filter (fun c0 => Tag c0 = "unavailable") (GetChildren node))
                     < length (GetChildren node))%nat).
      { apply filter_shorter. rewrite Hk. intros Hall. inversion Hall as [|? ? Hs1 _].
        rewrite (decrypt_call_enc info s1 d1 Hd1) in Hs1. discriminate. }
      lia. }
    rewrite Hne, Hk.
    rewrite (bind_done _ _ c tt) by reflexivity. cbn [emit result final events].
    cbn [decryptLoop].
    assert (Hloop : bind (decryptChild info node s1 false)
              (fun x => match x with
                        | Next handled' =>
                            bind (decryptChild info node s2 handled')
                              (fun x0 => match x0 with
                                         | Next handled'0 =>
                                             decryptLoop info node rest handled'0
                                         | Return => ret Return
                                         end)
                        | Return => ret Return
                        end) c
            = mkRun (Done Return) (final R)
                ((events (d1 c) ++ events H) ++
                 (events (d2 (final H)) ++ [ELog (LogDecryptError info err)] ++ events R))).
    { pose proof (decryptChild_dispatched info node s1 false d1 c plain1 msg1
                    Hd1 Hr1 Hu1 Hh1) as E1.
      pose proof (decryptChild_failed info node s2 true d2 (final H) err Hd2 Hr2) as E2.
      fold c1 in E1. fold H in E1. fold c2 in E2. fold R in E2.
      rewrite (bind_done _ _ c (Next true)) by (now rewrite E1).
      rewrite E1. cbn [result final events].
      rewrite (bind_done _ _ (final H) Return) by (now rewrite E2).
      rewrite E2. cbn [ret result final events].
      now rewrite app_nil_r. }
    rewrite (bind_done _ _ c Return) by (now rewrite Hloop).
    rewrite Hloop. cbn [ret result final events]. now rewrite app_nil_r. }
  rewrite Hrun. cbn [result final events].
  (* what each part does *)
  destruct (decrypt_call_effects info s1 d1 c Hd1) as (Hs1 & Hru1 & Ha1 & Hdi1 & Hat1).
  destruct (tame_handleDecryptedMessage info msg1 c1) as (HsH & HruH & HaH & HatH & HdiH).
  fold H in HsH, HruH, HaH, HatH, HdiH. rewrite Hh1 in HdiH.
  destruct (decrypt_call_effects info s2 d2 (final H) Hd2) as (Hs2 & Hru2 & Ha2 & Hdi2 & Hat2).
  destruct (sendRetryReceipt_effects node c2) as (_ & _ & HsR & HdiR & HaR & HatR).
  fold R in HsR, HdiR, HaR, HatR.
  destruct (retry_count_after node c2) as [Hcount _]. fold R in Hcount.
  assert (Hsame : same_but_store c c2).
  { eapply same_but_store_trans; [exact Hs1|].
    eapply same_but_store_trans; [exact HsH|exact Hs2]. }
  assert (HruR : retry_units (events R) = retry_sends node c2).
  { unfold retry_units. rewrite HsR. apply retry_sends_units. }
  pose proof (same_but_store_fields c c2 Hsame) as (_ & Hm & Hacc & _).
  assert (Hrc : retry_count c2 (retry_id node) = retry_count c (retry_id node))
    by (unfold retry_count; now rewrite Hm).
  repeat rewrite ?dispatches_app, ?retry_units_app, ?acks_app, ?decrypt_attempts_app.
  rewrite Hdi1, HdiH, Hdi2, HdiR, Ha1, HaH, Ha2, HaR, Hru1, HruH, Hru2, HruR, HatH, HatR.
  cbn [dispatches retry_units acks decrypt_attempts sends omap list_omap List.filter app].
  rewrite !app_nil_r, length_app, Hat1, Hat2, Hcount, Hrc.
  repeat split.
  - intros Hok.
    destruct (Z.le_gt_cases (retry_count c (retry_id node)) 0) as [Hle|Hgt].
    + rewrite retry_sends_first by lia. reflexivity.
    + destruct Hok as [Hle|Hmar]; [lia|].
      destruct (Marshal (SessionAccount (session c))) as [di|] eqn:E; [|now destruct Hmar].
      rewrite <- Hrc in Hgt. rewrite <- Hacc in E.
      destruct (retry_sends_bundle node c2 di Hgt E) as (key0 & _ & ->). reflexivity.
  - intros Hpos Hmar. apply retry_sends_none; [lia|now rewrite Hacc].
Qed.

End Runs.

(** ** The pipeline on concrete units *)

(** A sender-key distribution arriving in the direct chat with [alice]. *)
Lemma handleDecryptedMessage_nil_chat_witness :
  result (handleDecryptedMessage (Fake.info_of (Fake.unit_of []))
            Fake.skdm_msg (Fake.client None ∅))
    = Crashed NilDereference /\
  dispatches (events (handleDecryptedMessage (Fake.info_of (Fake.unit_of []))
                        Fake.skdm_msg (Fake.client None ∅))) = [] /\
  final (handleDecryptedMessage (Fake.info_of (Fake.unit_of []))
           Fake.skdm_msg (Fake.client None ∅)) = Fake.client None ∅.
Proof.
  apply (handleDecryptedMessage_nil_chat (Fake.info_of (Fake.unit_of []))
           Fake.skdm_msg [Byte.x02] (Fake.client None ∅));
    reflexivity.
Defined.

(** A sub-unit of the unknown type [frskmsg], alone and between two
    [msg] sub-units: both neighbours are still attempted. *)
Lemma unknown_enc_type_skipped_witness :
  decryptChild (Ext:=Fake.ext) (Fake.info_of Fake.batch) Fake.batch (Fake.enc "frskmsg" []) false
    (Fake.client None ∅)
    = mkRun (Done (Next false)) (Fake.client None ∅)
            [ELog (LogUnhandled "frskmsg" (Fake.info_of Fake.batch))] /\
  decrypt_attempts (Ext:=Fake.ext)
    (events (decryptLoop (Ext:=Fake.ext) (Fake.info_of Fake.batch) Fake.batch
               ([Fake.sub1] ++ Fake.enc "frskmsg" [] :: [Fake.sub3]) false
               (Fake.client None ∅)))
    = [("msg", [Byte.x68; Byte.x01]); ("msg", [Byte.x69; Byte.x01])].
Proof.
  destruct (unknown_enc_type_skipped (Ext:=Fake.ext) (Fake.info_of Fake.batch) Fake.batch
              (Fake.enc "frskmsg" []) "frskmsg" eq_refl eq_refl
              ltac:(discriminate) ltac:(discriminate) ltac:(discriminate))
    as [Hchild Hloop].
  split; [apply Hchild|].
  rewrite Hloop. reflexivity.
Defined.

(** C7, the claim as stated fails: with one retry already counted for the
    id and an account that does not serialise, the trigger brings the
    retry count to 2 and sends no retry unit at all. *)
Lemma retry_not_sent_without_account :
  retry_count (final (sendRetryReceipt (Fake.unit_of []) (Fake.retried None))) "A" = 2%Z /\
  sends (events (sendRetryReceipt (Fake.unit_of []) (Fake.retried None))) = [].
Proof. split; reflexivity. Qed.

(** The second retry for id [A], with an account that serialises to
    [09]. *)
Lemma retry_escalation_witness :
  retry_count (Fake.retried (Some [Byte.x09])) (retry_id (Fake.unit_of [])) = 1%Z /\
  exists u keys (key0 : @PreKey Fake.ext),
    sends (events (sendRetryReceipt (Fake.unit_of []) (Fake.retried (Some [Byte.x09])))) = [u] /\
    is_retry_unit u = true /\
    fst (GetOrGenPreKeys 1 (Store (session (Fake.retried (Some [Byte.x09]))))) = [key0] /\
    GetChildrenByTag u "keys" = [keys] /\
    Content keys = CNodes
      [ {| Tag := "type"; Attrs := ∅; Content := CBytes [@DjbType Fake.ext] |};
        {| Tag := "identity"; Attrs := ∅;
           Content := CBytes (IdentityKeyPub (session (Fake.retried (Some [Byte.x09])))) |};
        preKeyToNode key0;
        preKeyToNode (SignedPreKey (session (Fake.retried (Some [Byte.x09]))));
        {| Tag := "device-identity"; Attrs := ∅; Content := CBytes [Byte.x09] |} ].
Proof.
  split; [reflexivity|].
  destruct (retry_escalation (Fake.unit_of []) (Fake.retried (Some [Byte.x09])))
    as (_ & H & _).
  apply (H ltac:(vm_compute; reflexivity) [Byte.x09] eq_refl).
Defined.

(** C8, the claim as stated fails: a unit whose only sub-unit is
    [unavailable], with one retry already counted for its id and an
    account that does not serialise, emits no retry unit. *)
Lemma all_unavailable_no_unit :
  Forall (fun ch => Tag ch = "unavailable") (GetChildren (Fake.unit_of [Fake.unavailable])) /\
  sends (events (decryptMessages (Fake.info_of (Fake.unit_of [Fake.unavailable]))
                   (Fake.unit_of [Fake.unavailable]) (Fake.retried None))) = [] /\
  retry_units (events (decryptMessages (Fake.info_of (Fake.unit_of [Fake.unavailable]))
                         (Fake.unit_of [Fake.unavailable]) (Fake.retried None))) = [].
Proof. split; [repeat constructor|split; reflexivity]. Qed.

(** A unit whose only sub-unit is [unavailable], on a client with no
    retry counted yet. *)
Lemma all_unavailable_retry_witness :
  Forall (fun ch => Tag ch = "unavailable") (GetChildren (Fake.unit_of [Fake.unavailable])) /\
  decrypt_attempts (events (decryptMessages (Fake.info_of (Fake.unit_of [Fake.unavailable]))
                             (Fake.unit_of [Fake.unavailable]) (Fake.client None ∅))) = [] /\
  retry_count (final (decryptMessages (Fake.info_of (Fake.unit_of [Fake.unavailable]))
                        (Fake.unit_of [Fake.unavailable]) (Fake.client None ∅))) "A" = 1%Z /\
  exists u, sends (events (decryptMessages (Fake.info_of (Fake.unit_of [Fake.unavailable]))
                             (Fake.unit_of [Fake.unavailable]) (Fake.client None ∅))) = [u] /\
            is_retry_unit u = true.
Proof.
  assert (Hall : Forall (fun ch => Tag ch = "unavailable")
                   (GetChildren (Fake.unit_of [Fake.unavailable])))
    by (repeat constructor).
  destruct (all_unavailable_retry (Fake.info_of (Fake.unit_of [Fake.unavailable]))
              (Fake.unit_of [Fake.unavailable]) (Fake.client None ∅) Hall)
    as (Ha & _ & Hc & _ & Hs & _).
  split; [exact Hall|]. split; [exact Ha|]. split; [exact Hc|].
  apply Hs. left. vm_compute. discriminate.
Defined.

(** C5, the claim as stated fails: of three sub-units the first decrypts
    and the second does not, and the dispatcher has been invoked for the
    first by the time the second fails. *)
Lemma batch_dispatches_first :
  result (decryptDM Fake.sub1 Fake.alice false (Fake.client None ∅)) = Done (inl [Byte.x68]) /\
  result (decryptDM Fake.sub2 Fake.alice false (Fake.client None ∅))
    = Done (inr ErrDecryptNormal) /\
  dispatches (events (decryptMessages (Fake.info_of Fake.batch) Fake.batch
                        (Fake.client None ∅)))
    = [{| Info := Fake.info_of Fake.batch; Msg := Fake.hello |}] /\
  length (dispatches (events (decryptMessages (Fake.info_of Fake.batch) Fake.batch
                                (Fake.client None ∅)))) <> 0%nat.
Proof. repeat split; try reflexivity. vm_compute. discriminate. Qed.

(** The three-sub-unit batch on a client with no retry counted yet. *)
Lemma batch_abort_witness :
  dispatches (events (decryptMessages (Fake.info_of Fake.batch) Fake.batch
                        (Fake.client None ∅)))
    = [{| Info := Fake.info_of Fake.batch; Msg := Fake.hello |}] /\
  length (decrypt_attempts (events (decryptMessages (Fake.info_of Fake.batch) Fake.batch
                                      (Fake.client None ∅)))) = 2%nat /\
  length (retry_units (events (decryptMessages (Fake.info_of Fake.batch) Fake.batch
                                 (Fake.client None ∅)))) = 1%nat.
Proof.
  destruct (batch_abort (Fake.info_of Fake.batch) Fake.batch Fake.sub1 Fake.sub2 [Fake.sub3]
              (decryptDM Fake.sub1 Fake.alice false) (decryptDM Fake.sub2 Fake.alice false)
              [Byte.x68] Fake.hello ErrDecryptNormal
              (Fake.client None ∅)
              eq_refl eq_refl eq_refl eq_refl eq_refl eq_refl eq_refl)
    as (_ & Hd & Ha & _ & _ & Hone & _).
  split; [exact Hd|]. split; [exact Ha|].
  apply Hone. left. vm_compute. discriminate.
Defined.

(** * Further properties of the code *)

(** ** Padding codec: shapes, panics and the exact round trip *)

Section PaddingCodecMore.

Lemma index_last_inv {A} (l : list A) (b : A) :
  index l (len l - 1) = Some b -> exists pre, l = pre ++ [b].
Proof.
  destruct l as [|a l'] using rev_ind; [discriminate|].
  rewrite index_last. intros H. inversion H. now exists l'.
Qed.

Lemma byte_int_zero (b : Byte.byte) : byte_int b = 0%Z -> b = Byte.x00.
Proof.
  unfold byte_int. intros H.
  assert (Hn : Byte.to_N b = 0%N) by lia.
  pose proof (Byte.of_to_N b) as Hb. rewrite Hn in Hb. simpl in Hb. congruence.
Qed.

(** On a buffer ending in the zero byte [unpadMessage] strips nothing. *)
Lemma unpadMessage_zero_last (cp : bool) (pre : bytes) :
  unpadMessage cp (pre ++ [Byte.x00]) = Ok (pre ++ [Byte.x00]).
Proof.
  assert (Hs : slice_to (pre ++ [Byte.x00]) (len (pre ++ [Byte.x00]) - byte_int Byte.x00)
               = Some (pre ++ [Byte.x00])).
  { pose proof (slice_to_app (pre ++ [Byte.x00]) []) as H.
    rewrite app_nil_r in H. exact H. }
  unfold unpadMessage. rewrite index_last, Hs.
  destruct cp; [|reflexivity].
  assert (Hsuf : HasSuffix (pre ++ [Byte.x00]) (Repeat [Byte.x00] (byte_int Byte.x00)) = true).
  { apply HasSuffix_iff. exists (pre ++ [Byte.x00]). now rewrite app_nil_r. }
  now rewrite Hsuf.
Qed.

Lemma unpadMessage_padded_draw (cp : bool) (r : Byte.byte) (x : bytes) :
  (1 <= byte_int r <= 15)%Z ->
  exists p, padMessage (RandByte r) x = Ok p /\ unpadMessage cp p = Ok x.
Proof.
  intros Hr. eexists. split; [apply padMessage_appends|].
  rewrite low4_small by lia. apply unpadMessage_padded. lia.
Qed.

(** X1.  The exact round trip.  Unpadding the padded [x] gives back [x],
    with the check on or off, exactly when the random byte is between 1
    and 15, or its low nibble is 0 and [x] itself ends in a zero byte. *)
Theorem unpad_pad_round_trip_iff (cp : bool) (r : Byte.byte) (x : bytes) :
  (exists p, padMessage (RandByte r) x = Ok p /\ unpadMessage cp p = Ok x) <->
  (1 <= byte_int r <= 15)%Z \/
  (low4 r = 0%Z /\ exists pre, x = pre ++ [Byte.x00]).
Proof.
  pose proof (byte_int_range r) as Hr. pose proof (low4_range r) as Hl. split.
  - intros (p & Hp & Hu). rewrite padMessage_appends in Hp. inversion Hp as [Hp'].
    destruct (unpadMessage_Ok_len cp p x Hu) as (b & Hb & Hlen).
    rewrite <- Hp', len_app, len_repeat in Hlen by lia.
    destruct (Z.eq_dec (low4 r) 0%Z) as [H0|Hn0].
    + right. split; [exact H0|].
      rewrite <- Hp', H0 in Hb. simpl in Hb. rewrite app_nil_r in Hb.
      destruct (index_last_inv x b Hb) as [pre Hx]. exists pre.
      rewrite Hx. f_equal. f_equal. apply byte_int_zero. lia.
    + left.
      assert (Hlast : index p (len p - 1) = Some r).
      { rewrite <- Hp'. destruct (Z.to_nat (low4 r)) as [|k] eqn:Ek; [lia|].
        change (repeat r (S k)) with (r :: repeat r k).
        rewrite repeat_cons, app_assoc. apply index_last. }
      rewrite Hlast in Hb. inversion Hb; subst b. lia.
  - intros [Hin|(H0 & pre & Hx)].
    + now apply unpadMessage_padded_draw.
    + exists x. split; [now apply padMessage_zero_nibble|].
      rewrite Hx. apply unpadMessage_zero_last.
Qed.

Lemma slice_to_Some {A} (l y : list A) (j : Z) :
  slice_to l j = Some y ->
  (0 <= j <= len l)%Z /\ y = firstn (Z.to_nat j) l /\ l = y ++ skipn (Z.to_nat j) l.
Proof.
  unfold slice_to. fold (len l).
  destruct (Z.ltb_spec j 0); [discriminate|].
  destruct (Z.ltb_spec (len l) j); [discriminate|]. simpl.
  intros H'. inversion H'. split; [lia|]. split; [reflexivity|].
  symmetry. apply firstn_skipn.
Qed.

(** What [unpadMessage] computes once the last byte is known: the check,
    then the slice. *)
Lemma unpadMessage_last (cp : bool) (pre : bytes) (v : Byte.byte) :
  unpadMessage cp (pre ++ [v])
  = if cp && negb (HasSuffix (pre ++ [v]) (repeat v (Z.to_nat (byte_int v))))
    then Err ErrBadPadding
    else match slice_to (pre ++ [v]) (len (pre ++ [v]) - byte_int v) with
         | Some y => Ok y
         | None => Panics SliceBoundsOutOfRange
         end.
Proof.
  unfold unpadMessage. rewrite index_last, Repeat_single. now destruct cp.
Qed.

(** X2.  Whatever [unpadMessage] returns, with the check on or off, is
    the buffer without a tail as long as its last byte says; with the
    check on that tail is made of copies of the last byte. *)
Theorem unpadMessage_result_shape (cp : bool) (p y : bytes) :
  unpadMessage cp p = Ok y ->
  exists v tail,
    index p (len p - 1) = Some v /\
    p = y ++ tail /\
    len tail = byte_int v /\
    (cp = true -> tail = repeat v (Z.to_nat (byte_int v))).
Proof.
  intros H. pose proof (unpadMessage_Ok_len cp p y H) as (v & Hv & Hlen).
  destruct (index_last_inv p v Hv) as [pre Hp]. subst p.
  rewrite unpadMessage_last in H. pose proof (byte_int_range v) as Hr.
  destruct (cp && negb (HasSuffix (pre ++ [v]) (repeat v (Z.to_nat (byte_int v))))) eqn:Ec;
    [discriminate|].
  destruct (slice_to (pre ++ [v]) (len (pre ++ [v]) - byte_int v)) as [y'|] eqn:Es;
    [|discriminate].
  inversion H; subst y'. apply slice_to_Some in Es. destruct Es as (Hj & Hy & Hsplit).
  exists v, (skipn (Z.to_nat (len (pre ++ [v]) - byte_int v)) (pre ++ [v])).
  split; [exact Hv|]. split; [exact Hsplit|]. split.
  - unfold len at 1. rewrite length_skipn. unfold len in *. lia.
  - intros ->. simpl in Ec. apply negb_false_iff in Ec.
    unfold HasSuffix, Equal in Ec. apply andb_true_iff in Ec. destruct Ec as [_ Ec].
    apply bool_decide_eq_true in Ec. rewrite len_repeat in Ec by lia. exact Ec.
Qed.

(** The buffer [0a 03 03 03], unpadded with the check on. *)
Lemma unpadMessage_result_shape_witness :
  exists v tail,
    index [Byte.x0a; Byte.x03; Byte.x03; Byte.x03]
          (len [Byte.x0a; Byte.x03; Byte.x03; Byte.x03] - 1) = Some v /\
    [Byte.x0a; Byte.x03; Byte.x03; Byte.x03] = [Byte.x0a] ++ tail /\
    len tail = byte_int v /\
    (true = true -> tail = repeat v (Z.to_nat (byte_int v))).
Proof.
  apply (unpadMessage_result_shape true [Byte.x0a; Byte.x03; Byte.x03; Byte.x03]
           [Byte.x0a]).
  reflexivity.
Defined.

(** X3.  With the check on, [unpadMessage] panics on the empty buffer
    only: on every other buffer it returns a result or the bad-padding
    error, and the slice bound is never out of range. *)
Theorem unpadMessage_checked_panics_iff (p : bytes) (q : panic) :
  unpadMessage true p = Panics q <-> p = [] /\ q = IndexOutOfRange.
Proof.
  split.
  - intros H. destruct p as [|a l] using rev_ind.
    + split; [reflexivity|]. simpl in H. now inversion H.
    + exfalso. clear IHl. rewrite unpadMessage_last in H. simpl in H.
      destruct (HasSuffix (l ++ [a]) (repeat a (Z.to_nat (byte_int a)))) eqn:Es;
        simpl in H; [|discriminate].
      apply HasSuffix_iff in Es. destruct Es as [rest Hrest].
      pose proof (byte_int_range a) as Hr.
      rewrite Hrest in H at 1 2.
      rewrite <- (len_repeat a (byte_int a)) in H at 3 by lia.
      rewrite slice_to_app in H. discriminate.
  - intros [-> ->]. reflexivity.
Qed.

(** X4.  With the check off, a non-empty buffer whose last byte is [v]
    loses its last [v] bytes when it has that many, and makes
    [unpadMessage] panic on the slice bound when it is shorter; and the
    check only rejects: what the checked call returns, the unchecked call
    returns too. *)
Theorem unpadMessage_unchecked (pre : bytes) (v : Byte.byte) :
  ((byte_int v <= len (pre ++ [v]))%Z ->
     unpadMessage false (pre ++ [v])
       = Ok (firstn (Z.to_nat (len (pre ++ [v]) - byte_int v)) (pre ++ [v]))) /\
  ((len (pre ++ [v]) < byte_int v)%Z ->
     unpadMessage false (pre ++ [v]) = Panics SliceBoundsOutOfRange) /\
  (forall y, unpadMessage true (pre ++ [v]) = Ok y ->
     unpadMessage false (pre ++ [v]) = Ok y).
Proof.
  pose proof (byte_int_range v) as Hr.
  rewrite !unpadMessage_last. simpl. unfold slice_to. fold (len (pre ++ [v])).
  split; [|split].
  - intros Hle.
    destruct (Z.ltb_spec (len (pre ++ [v]) - byte_int v) 0); [lia|].
    destruct (Z.ltb_spec (len (pre ++ [v])) (len (pre ++ [v]) - byte_int v)); [lia|].
    reflexivity.
  - intros Hlt.
    destruct (Z.ltb_spec (len (pre ++ [v]) - byte_int v) 0); [reflexivity|lia].
  - intros y.
    destruct (negb (HasSuffix (pre ++ [v]) (repeat v (Z.to_nat (byte_int v)))));
      [discriminate|auto].
Qed.

(** The one-byte buffer [05]: shorter than its last byte says. *)
Lemma unpadMessage_unchecked_witness :
  unpadMessage false ([] ++ [Byte.x05]) = Panics SliceBoundsOutOfRange.
Proof.
  destruct (unpadMessage_unchecked [] Byte.x05) as (_ & H & _).
  apply H. vm_compute. reflexivity.
Defined.

(** X5.  [padMessage] panics exactly when the random source fails and
    never returns an error; otherwise the result is the plaintext
    followed by copies of the random byte, between 0 and 15 of them. *)
Theorem padMessage_shape (rnd : rand_read) (x : bytes) :
  match padMessage rnd x with
  | Ok p => exists r, rnd = RandByte r /\
                      p = x ++ repeat r (Z.to_nat (low4 r)) /\
                      (len x <= len p <= len x + 15)%Z
  | Err _ => False
  | Panics q => rnd = RandErr /\ q = PanicErr
  end.
Proof.
  destruct rnd as [r|]; [|now split].
  rewrite padMessage_appends. exists r. split; [reflexivity|]. split; [reflexivity|].
  pose proof (low4_range r). rewrite len_app, len_repeat by lia. lia.
Qed.

End PaddingCodecMore.

(** ** Message-info extractor and entry point: errors, copies, bounds *)

Section MessageInfoMore.

Variable gs : string.   (* waBinary.GroupServer *)

Lemma digit_of_range (c : ascii) (d : Z) : digit_of c = Some d -> (0 <= d <= 9)%Z.
Proof.
  unfold digit_of.
  destruct (Z.leb_spec 48 (Z.of_nat (nat_of_ascii c)));
    destruct (Z.leb_spec (Z.of_nat (nat_of_ascii c)) 57); simpl; try discriminate.
  intros H'. inversion H'. lia.
Qed.

Lemma parse_digits_nonneg (s : string) (acc n : Z) :
  (0 <= acc)%Z -> parse_digits s acc = Some n -> (0 <= n)%Z.
Proof.
  revert acc. induction s as [|c s IH]; intros acc Hacc; simpl.
  - intros H. inversion H. lia.
  - destruct (digit_of c) as [d|] eqn:Ed; [|discriminate].
    apply digit_of_range in Ed. apply IH. lia.
Qed.

Lemma ParseUint_nonneg (s : string) (n : Z) : ParseUint s = Some n -> (0 <= n)%Z.
Proof.
  unfold ParseUint. destruct s; [discriminate|]. apply parse_digits_nonneg. lia.
Qed.

(** A parsed integer fits in an int64. *)
Lemma ParseInt_int64 (s : string) (t : Z) :
  ParseInt s = Some t -> (- 2 ^ 63 <= t < 2 ^ 63)%Z.
Proof.
  unfold ParseInt. destruct s as [|c r]; [discriminate|].
  destruct (Ascii.eqb c "+"%char);
    [|destruct (Ascii.eqb c "-"%char)];
    match goal with
    | |- context [ParseUint ?b] =>
        destruct (ParseUint b) as [un|] eqn:Eu; [|discriminate];
        apply ParseUint_nonneg in Eu
    end; simpl;
    repeat match goal with
           | |- context [(?a <=? ?b)%Z] => destruct (Z.leb_spec a b)
           | |- context [(?a <? ?b)%Z] => destruct (Z.ltb_spec a b)
           end; simpl; try discriminate;
    intros H'; inversion H'; lia.
Qed.

(** The id of a parsed info is the [id] string of the node. *)
Lemma parseMessageInfo_id (node : Node) (info : MessageInfo) :
  parseMessageInfo gs node = inl info ->
  attr_string (Attrs node) "id" = Some (ID info).
Proof.
  unfold parseMessageInfo. intros H.
  destruct (attr_jid (Attrs node) "from") as [from|]; [|discriminate].
  destruct (String.eqb (Server from) gs);
    [destruct (attr_jid (Attrs node) "participant") as [p|]; [|discriminate]|];
    (destruct (attr_string (Attrs node) "id") as [id|]; [|discriminate]);
    (destruct (attr_string (Attrs node) "t") as [ts|]; [|discriminate]);
    (destruct (ParseInt ts) as [t|]; [|discriminate]);
    injection H as <-; reflexivity.
Qed.

(** X6.  Which error [parseMessageInfo] reports: the checks run in the
    order [from], [participant] (group addresses only), [id], [t], and the
    first one that fails decides the error, whatever the later attributes
    are: without a valid [from] the error is the one for [from]; with a
    group [from] and no valid [participant] it is the one for
    [participant]; past these, without a string [id] it is the one for
    [id]; past that, without a string [t] it is the missing-timestamp
    error and with a [t] that does not parse the bad-timestamp error; and
    when no check fails the extraction succeeds. *)
Theorem parseMessageInfo_first_error (node : Node) :
  (attr_jid (Attrs node) "from" = None ->
     parseMessageInfo gs node = inr ErrNoFrom) /\
  (forall from,
     attr_jid (Attrs node) "from" = Some from ->
     (Server from = gs -> attr_jid (Attrs node) "participant" = None ->
        parseMessageInfo gs node = inr ErrNoParticipant) /\
     ((Server from = gs -> attr_jid (Attrs node) "participant" <> None) ->
        (attr_string (Attrs node) "id" = None ->
           parseMessageInfo gs node = inr ErrNoID) /\
        (attr_string (Attrs node) "id" <> None ->
           (attr_string (Attrs node) "t" = None ->
              parseMessageInfo gs node = inr ErrNoTimestamp) /\
           (forall ts, attr_string (Attrs node) "t" = Some ts ->
              (ParseInt ts = None ->
                 parseMessageInfo gs node = inr ErrBadTimestamp) /\
              (ParseInt ts <> None ->
                 exists info, parseMessageInfo gs node = inl info))))).
Proof.
  split.
  - intros H. unfold parseMessageInfo. now rewrite H.
  - intros from Hfrom. split.
    { intros Hgroup Hpart. apply String.eqb_eq in Hgroup.
      unfold parseMessageInfo. now rewrite Hfrom, Hgroup, Hpart. }
    intros Hpart.
    assert (Hshape : forall (r : MessageInfo + go_error),
              (forall chat who,
                 match attr_string (Attrs node) "id" with
                 | None => inr ErrNoID
                 | Some id =>
                     match attr_string (Attrs node) "t" with
                     | None => inr ErrNoTimestamp
                     | Some ts =>
                         match ParseInt ts with
                         | None => inr ErrBadTimestamp
                         | Some t =>
                             inl {| From := who; Chat := chat; ID := id; Type_ := "";
                                    Recipient := attr_jid (Attrs node) "recipient";
                                    Notify := default "" (attr_string (Attrs node) "notify");
                                    Timestamp := t;
                                    Category := default "" (attr_string (Attrs node) "category") |}
                         end
                     end
                 end = r) ->
              parseMessageInfo gs node = r).
    { intros r Hr. unfold parseMessageInfo. rewrite Hfrom.
      destruct (String.eqb (Server from) gs) eqn:Es.
      - apply String.eqb_eq in Es.
        destruct (attr_jid (Attrs node) "participant") as [p|] eqn:Ep;
          [apply Hr|now destruct (Hpart Es)].
      - apply Hr. }
    split.
    + intros Hid. apply Hshape. intros chat who. now rewrite Hid.
    + intros Hid.
      destruct (attr_string (Attrs node) "id") as [id|] eqn:Eid; [|now destruct Hid].
      split.
      * intros Ht. apply Hshape. intros chat who. now rewrite Ht.
      * intros ts Ht. split.
        -- intros Hp. apply Hshape. intros chat who. now rewrite Ht, Hp.
        -- intros Hp. destruct (ParseInt ts) as [t|] eqn:Ep; [|now destruct Hp].
           unfold parseMessageInfo. rewrite Hfrom, Eid, Ht, Ep.
           destruct (String.eqb (Server from) gs) eqn:Es.
           ++ apply String.eqb_eq in Es.
              destruct (attr_jid (Attrs node) "participant") as [q|] eqn:Eq;
                [|now destruct (Hpart Es)].
              eexists; reflexivity.
           ++ eexists; reflexivity.
Qed.

(** X7.  What a successful extraction copies: the [id] string as it is,
    the optional [recipient], [notify] and [category] when they have the
    right type and the zero value otherwise, never a [Type]; and the
    timestamp is the [t] string parsed, within the int64 range. *)
Theorem parseMessageInfo_copies (node : Node) (info : MessageInfo) :
  parseMessageInfo gs node = inl info ->
  attr_string (Attrs node) "id" = Some (ID info) /\
  Recipient info = attr_jid (Attrs node) "recipient" /\
  Notify info = default "" (attr_string (Attrs node) "notify") /\
  Category info = default "" (attr_string (Attrs node) "category") /\
  Type_ info = "" /\
  (exists ts, attr_string (Attrs node) "t" = Some ts /\
              ParseInt ts = Some (Timestamp info)) /\
  (- 2 ^ 63 <= Timestamp info < 2 ^ 63)%Z.
Proof.
  unfold parseMessageInfo. intros H.
  destruct (attr_jid (Attrs node) "from") as [from|]; [|discriminate].
  assert (Hgoal : forall chat who id ts t,
            attr_string (Attrs node) "id" = Some id ->
            attr_string (Attrs node) "t" = Some ts ->
            ParseInt ts = Some t ->
            info = {| From := who; Chat := chat; ID := id; Type_ := "";
                      Recipient := attr_jid (Attrs node) "recipient";
                      Notify := default "" (attr_string (Attrs node) "notify");
                      Timestamp := t;
                      Category := default "" (attr_string (Attrs node) "category") |} ->
            attr_string (Attrs node) "id" = Some (ID info) /\
            Recipient info = attr_jid (Attrs node) "recipient" /\
            Notify info = default "" (attr_string (Attrs node) "notify") /\
            Category info = default "" (attr_string (Attrs node) "category") /\
            Type_ info = "" /\
            (exists ts, attr_string (Attrs node) "t" = Some ts /\
                        ParseInt ts = Some (Timestamp info)) /\
            (- 2 ^ 63 <= Timestamp info < 2 ^ 63)%Z).
  { intros chat who id ts t Hid Ht Hp ->. simpl.
    repeat split; try assumption; try reflexivity.
    - exists ts. now split.
    - now apply (ParseInt_int64 ts).
    - now apply (ParseInt_int64 ts). }
  destruct (String.eqb (Server from) gs);
    [destruct (attr_jid (Attrs node) "participant") as [p|]; [|discriminate]|];
    (destruct (attr_string (Attrs node) "id") as [id|] eqn:Hid; [|discriminate]);
    (destruct (attr_string (Attrs node) "t") as [ts|] eqn:Ht; [|discriminate]);
    (destruct (ParseInt ts) as [t|] eqn:Hp; [|discriminate]);
    injection H as Hinfo;
    (eapply Hgoal; [reflexivity|reflexivity|exact Hp|symmetry; exact Hinfo]).
Qed.

(** X8.  [handleEncryptedMessage] consumes exactly the nodes tagged
    [message]; on any other node it does nothing.  It starts
    [decryptMessages] exactly when the message info parses, on that info
    and the node itself, without a warning, and the id under which a retry
    for that node is counted is then the id of the info.  A message whose
    info does not parse is consumed with a warning that carries the parse
    error, a malformed-message error, and is dropped: nothing is started.
    There is no warning in any other case. *)
Theorem handleEncryptedMessage_outcomes (node : Node) :
  (consumed (handleEncryptedMessage gs node) = true <-> Tag node = "message") /\
  (Tag node <> "message" ->
     handleEncryptedMessage gs node
       = {| consumed := false; parse_warning := None; started := None |}) /\
  (Tag node = "message" ->
     forall info, parseMessageInfo gs node = inl info ->
     handleEncryptedMessage gs node
       = {| consumed := true; parse_warning := None; started := Some (info, node) |} /\
     retry_id node = ID info) /\
  (Tag node = "message" ->
     forall e, parseMessageInfo gs node = inr e ->
     handleEncryptedMessage gs node
       = {| consumed := true; parse_warning := Some e; started := None |} /\
     MalformedMessage e) /\
  (forall info n,
     started (handleEncryptedMessage gs node) = Some (info, n) ->
     n = node /\ Tag node = "message" /\
     parseMessageInfo gs node = inl info /\ retry_id node = ID info) /\
  (forall e,
     parse_warning (handleEncryptedMessage gs node) = Some e ->
     Tag node = "message" /\ parseMessageInfo gs node = inr e /\
     MalformedMessage e /\
     consumed (handleEncryptedMessage gs node) = true /\
     started (handleEncryptedMessage gs node) = None).
Proof.
  unfold handleEncryptedMessage.
  destruct (String.eqb (Tag node) "message") eqn:Et; simpl.
  - apply String.eqb_eq in Et.
    destruct (parseMessageInfo gs node) as [info|err] eqn:Ep; simpl.
    + split; [tauto|]. split; [intros H; contradiction|].
      split; [|split; [|split]].
      * intros _ info' H. injection H as <-. split; [reflexivity|].
        unfold retry_id. now rewrite (parseMessageInfo_id node info Ep).
      * intros _ e H. discriminate.
      * intros info' n' H. inversion H; subst info' n'.
        split; [reflexivity|]. split; [exact Et|]. split; [reflexivity|].
        unfold retry_id. now rewrite (parseMessageInfo_id node info Ep).
      * intros e H. discriminate.
    + assert (Hclass : MalformedMessage err)
        by (now apply parseMessageInfo_error_class with (gs := gs) (node := node)).
      split; [tauto|]. split; [intros H; contradiction|].
      split; [|split; [|split]].
      * intros _ info' H. discriminate.
      * intros _ e H. injection H as <-. now split.
      * intros info' n' H. discriminate.
      * intros e H. inversion H; subst e.
        split; [exact Et|]. split; [reflexivity|]. split; [exact Hclass|].
        split; reflexivity.
  - apply String.eqb_neq in Et.
    split; [split; [discriminate|intros H; contradiction]|].
    split; [reflexivity|].
    split; [intros H; contradiction|].
    split; [intros H; contradiction|].
    split; [intros info' n' H; discriminate|].
    intros e H; discriminate.
Qed.

End MessageInfoMore.

(** A unit sent by [alice] in [group], with a [notify] name. *)
Lemma parseMessageInfo_copies_witness :
  exists info,
    parseMessageInfo "g.us" (Fake.group_unit_of []) = inl info /\
    attr_string (Attrs (Fake.group_unit_of [])) "id" = Some (ID info) /\
    Recipient info = None /\ Notify info = "" /\ Category info = "" /\
    (- 2 ^ 63 <= Timestamp info < 2 ^ 63)%Z.
Proof.
  eexists. split; [reflexivity|].
  destruct (parseMessageInfo_copies "g.us" (Fake.group_unit_of []) _ eq_refl)
    as (Hid & Hr & Hn & Hc & _ & _ & Ht).
  split; [exact Hid|]. split; [exact Hr|]. split; [exact Hn|]. split; [exact Hc|exact Ht].
Defined.

(** ** Retry-receipt manager: state, wire shape, escalation *)

Section RetryMore.
Context `{Ext : Externals}.

(** The client [sendRetryReceipt] leaves: the counter of the unit's id
    one higher, the Signal store possibly changed, the rest as it was. *)
Lemma sendRetryReceipt_final (node : Node) (c : Client) :
  exists st,
    final (sendRetryReceipt node c)
    = {| CheckPadding := CheckPadding c;
         session := with_store (session c) st;
         messageRetries :=
           <[retry_id node := (retry_count c (retry_id node) + 1)%Z]> (messageRetries c) |}.
Proof.
  remember (sendRetryReceipt node c) as r eqn:Hr.
  unfold sendRetryReceipt in Hr. unfold retry_id, retry_count.
  set (id := default "" (attr_string (Attrs node) "id")) in *.
  set (n := (default 0 (messageRetries c !! id) + 1)%Z) in *.
  unfold bind at 1 in Hr. cbn [get result final events] in Hr.
  unfold bind at 1 in Hr.
  cbn [set_retries result final events session messageRetries] in Hr.
  fold n in Hr.
  assert (Hsame : with_store (session c) (Store (session c)) = session c)
    by (now destruct (session c)).
  destruct (1 <? n)%Z.
  - destruct (GetOrGenPreKeys_one (Store (session c))) as [key0 Hk].
    destruct (GetOrGenPreKeys 1 (Store (session c))) as [keys st].
    simpl in Hk. subst keys. exists st.
    unfold bind at 1 in Hr.
    cbn [set_store result final events session messageRetries with_store
         SessionAccount CheckPadding] in Hr.
    destruct (Marshal (SessionAccount (session c))) as [di|].
    + change (index [key0] 0) with (Some key0) in Hr.
      unfold bind, sendNode, emit, ret in Hr. cbn [result final events] in Hr.
      match type of Hr with context [sendNodeFails ?x] => destruct (sendNodeFails x) end;
        subst r; reflexivity.
    + subst r. reflexivity.
  - exists (Store (session c)). rewrite Hsame.
    unfold bind, sendNode, emit, ret in Hr. cbn [result final events] in Hr.
    match type of Hr with context [sendNodeFails ?x] => destruct (sendNodeFails x) end;
      subst r; reflexivity.
Qed.

Lemma retry_sends_short (node : Node) (c : Client) :
  (length (retry_sends node c) <= 1)%nat.
Proof.
  unfold retry_sends.
  destruct (1 <? retry_count c (retry_id node) + 1)%Z; [|simpl; lia].
  destruct (Marshal (SessionAccount (session c))); [|simpl; lia].
  destruct (fst (GetOrGenPreKeys 1 (Store (session c)))); simpl; lia.
Qed.

(** X9.  A retry trigger always returns; it raises the counter of the
    unit's id by exactly 1 and leaves every other counter, the padding
    policy and the account alone; it hands at most one node to the
    transport, a retry unit, and dispatches, acknowledges and decrypts
    nothing. *)
Theorem sendRetryReceipt_footprint (node : Node) (c : Client) :
  result (sendRetryReceipt node c) = Done tt /\
  retry_count (final (sendRetryReceipt node c)) (retry_id node)
    = (retry_count c (retry_id node) + 1)%Z /\
  (forall id, id <> retry_id node ->
     retry_count (final (sendRetryReceipt node c)) id = retry_count c id) /\
  CheckPadding (final (sendRetryReceipt node c)) = CheckPadding c /\
  SessionAccount (session (final (sendRetryReceipt node c))) = SessionAccount (session c) /\
  (length (sends (events (sendRetryReceipt node c))) <= 1)%nat /\
  retry_units (events (sendRetryReceipt node c)) = sends (events (sendRetryReceipt node c)) /\
  dispatches (events (sendRetryReceipt node c)) = [] /\
  acks (events (sendRetryReceipt node c)) = [] /\
  decrypt_attempts (events (sendRetryReceipt node c)) = [].
Proof.
  destruct (sendRetryReceipt_effects node c) as (Hres & Hm & Hs & Hd & Ha & Hc).
  destruct (sendRetryReceipt_final node c) as [st Hf].
  split; [exact Hres|]. split; [|split].
  - unfold retry_count at 1. now rewrite Hm, lookup_insert_eq.
  - intros id Hne. unfold retry_count at 1.
    now rewrite Hm, lookup_insert_ne by congruence.
  - split; [now rewrite Hf|]. split; [now rewrite Hf|].
    split; [rewrite Hs; apply retry_sends_short|].
    split; [unfold retry_units; rewrite Hs; apply retry_sends_units|].
    now repeat split.
Qed.

Lemma retryAttrs_lookup (node : Node) (id : string) :
  retryAttrs node id !! "id" = Some (AString id) /\
  retryAttrs node id !! "to" = Some (attr (Attrs node) "from") /\
  retryAttrs node id !! "recipient" = Attrs node !! "recipient" /\
  retryAttrs node id !! "participant" = Attrs node !! "participant".
Proof.
  unfold retryAttrs.
  destruct (Attrs node !! "participant") as [pa|], (Attrs node !! "recipient") as [re|];
    repeat split;
    repeat (first [ rewrite lookup_insert_eq | rewrite lookup_insert_ne by discriminate ]);
    try reflexivity; apply lookup_empty.
Qed.

(** X10.  The wire shape of a retry unit.  Every node a retry trigger
    sends is tagged [receipt]; its attributes are the id, the type
    [retry], the [from] attribute of the inbound node as [to], and the
    [recipient] and [participant] attributes of the inbound node exactly
    when it has them; its first two children are the [retry] child, with
    the new count, the id, the [t] attribute of the inbound node and
    version 1, and the [registration] child. *)
Theorem retry_unit_shape (node u : Node) (c : Client) :
  In u (sends (events (sendRetryReceipt node c))) ->
  Tag u = "receipt" /\
  Attrs u !! "id" = Some (AString (retry_id node)) /\
  Attrs u !! "type" = Some (AString "retry") /\
  Attrs u !! "to" = Some (attr (Attrs node) "from") /\
  Attrs u !! "recipient" = Attrs node !! "recipient" /\
  Attrs u !! "participant" = Attrs node !! "participant" /\
  exists retry registration rest,
    GetChildren u = retry :: registration :: rest /\
    Tag retry = "retry" /\
    Attrs retry !! "count" = Some (AInt (retry_count c (retry_id node) + 1)) /\
    Attrs retry !! "id" = Some (AString (retry_id node)) /\
    Attrs retry !! "t" = Some (attr (Attrs node) "t") /\
    Attrs retry !! "v" = Some (AInt 1) /\
    registration = registrationChild (session c).
Proof.
  destruct (sendRetryReceipt_effects node c) as (_ & _ & Hs & _). rewrite Hs.
  destruct (retryAttrs_lookup node (retry_id node)) as (Hid & Hto & Hre & Hpa).
  assert (Hchild : forall n,
            Tag (retryChild node (retry_id node) n) = "retry" /\
            Attrs (retryChild node (retry_id node) n) !! "count" = Some (AInt n) /\
            Attrs (retryChild node (retry_id node) n) !! "id"
              = Some (AString (retry_id node)) /\
            Attrs (retryChild node (retry_id node) n) !! "t"
              = Some (attr (Attrs node) "t") /\
            Attrs (retryChild node (retry_id node) n) !! "v" = Some (AInt 1)).
  { intros n. unfold retryChild. cbn [Tag Attrs].
    repeat split;
      repeat (first [ rewrite lookup_insert_eq | rewrite lookup_insert_ne by discriminate ]);
      reflexivity. }
  assert (Hpayload : forall n rest,
            u = {| Tag := "receipt"; Attrs := retryAttrs node (retry_id node);
                   Content := CNodes (retryChild node (retry_id node) n
                                        :: registrationChild (session c) :: rest) |} ->
            n = (retry_count c (retry_id node) + 1)%Z ->
            Tag u = "receipt" /\
            Attrs u !! "id" = Some (AString (retry_id node)) /\
            Attrs u !! "type" = Some (AString "retry") /\
            Attrs u !! "to" = Some (attr (Attrs node) "from") /\
            Attrs u !! "recipient" = Attrs node !! "recipient" /\
            Attrs u !! "participant" = Attrs node !! "participant" /\
            exists retry registration rest,
              GetChildren u = retry :: registration :: rest /\
              Tag retry = "retry" /\
              Attrs retry !! "count" = Some (AInt (retry_count c (retry_id node) + 1)) /\
              Attrs retry !! "id" = Some (AString (retry_id node)) /\
              Attrs retry !! "t" = Some (attr (Attrs node) "t") /\
              Attrs retry !! "v" = Some (AInt 1) /\
              registration = registrationChild (session c)).
  { intros n rest -> ->. cbn [Tag Attrs].
    split; [reflexivity|]. split; [exact Hid|]. split; [apply retryAttrs_type|].
    split; [exact Hto|]. split; [exact Hre|]. split; [exact Hpa|].
    eexists _, _, rest. split; [reflexivity|].
    destruct (Hchild (retry_count c (retry_id node) + 1)%Z) as (H1 & H2 & H3 & H4 & H5).
    now repeat split. }
  unfold retry_sends.
  destruct (1 <? retry_count c (retry_id node) + 1)%Z.
  - destruct (Marshal (SessionAccount (session c))) as [di|]; [|intros []].
    destruct (fst (GetOrGenPreKeys 1 (Store (session c)))) as [|key0 ks]; [intros []|].
    intros [<-|[]]. eapply Hpayload; reflexivity.
  - intros [<-|[]]. eapply Hpayload; reflexivity.
Qed.

Lemma byte_int_byte_of_Z (v : Z) : byte_int (byte_of_Z v) = (v mod 256)%Z.
Proof.
  unfold byte_of_Z, byte_int.
  pose proof (Z.mod_pos_bound v 256 ltac:(lia)) as Hm.
  destruct (Byte.of_N (Z.to_N (v mod 256))) as [b|] eqn:E; simpl.
  - apply Byte.to_of_N in E. rewrite E. lia.
  - apply Byte.of_N_None_iff in E. lia.
Qed.

(** X11.  The registration id on the wire: four bytes, the first two
    zero, the last two the id in big-endian order, so that a 16-bit id is
    read back from them unchanged. *)
Theorem registrationIDBytes_big_endian (rid : Z) :
  exists hi lo,
    registrationIDBytes rid = [Byte.x00; Byte.x00; hi; lo] /\
    (byte_int hi * 256 + byte_int lo = rid mod 65536)%Z /\
    ((0 <= rid < 65536)%Z -> (byte_int hi * 256 + byte_int lo = rid)%Z).
Proof.
  exists (byte_of_Z (Z.shiftr rid 8)), (byte_of_Z rid).
  split; [reflexivity|].
  assert (H : (byte_int (byte_of_Z (Z.shiftr rid 8)) * 256 + byte_int (byte_of_Z rid)
               = rid mod 65536)%Z).
  { rewrite !byte_int_byte_of_Z, Z.shiftr_div_pow2 by lia.
    change (2 ^ 8)%Z with 256%Z. change 65536%Z with (256 * 256)%Z.
    rewrite Z.rem_mul_r by lia. lia. }
  split; [exact H|]. intros Hr. rewrite H. apply Z.mod_small. exact Hr.
Qed.

(** The state after [n] triggers. *)
Lemma triggers_state (node : Node) (n : nat) (c : Client) :
  result (triggers node n c) = Done tt /\
  retry_count (final (triggers node n c)) (retry_id node)
    = (retry_count c (retry_id node) + Z.of_nat n)%Z /\
  (forall id, id <> retry_id node ->
     retry_count (final (triggers node n c)) id = retry_count c id) /\
  SessionAccount (session (final (triggers node n c))) = SessionAccount (session c).
Proof.
  induction n as [|n IH].
  - simpl. repeat split. lia.
  - destruct IH as (Hres & Hcnt & Hoth & Hacc).
    cbn [triggers]. rewrite (bind_done _ _ c tt Hres). cbn [result final events].
    set (c' := final (triggers node n c)) in *.
    destruct (sendRetryReceipt_effects node c') as (Hres' & Hm & _).
    destruct (sendRetryReceipt_final node c') as [st Hf].
    split; [exact Hres'|]. split; [|split].
    + unfold retry_count at 1. rewrite Hm, lookup_insert_eq. simpl. lia.
    + intros id Hne. unfold retry_count at 1.
      rewrite Hm, lookup_insert_ne by congruence. now apply Hoth.
    + rewrite Hf. simpl. exact Hacc.
Qed.

(** X12.  The retry counter counts triggers: after [n] triggers for the
    same unit, one after the other, the counter of its id is [n] higher,
    no other counter has moved, and at most [n] nodes were sent. *)
Theorem retry_counter_counts_triggers (node : Node) (n : nat) (c : Client) :
  result (triggers node n c) = Done tt /\
  retry_count (final (triggers node n c)) (retry_id node)
    = (retry_count c (retry_id node) + Z.of_nat n)%Z /\
  (forall id, id <> retry_id node ->
     retry_count (final (triggers node n c)) id = retry_count c id) /\
  (length (sends (events (triggers node n c))) <= n)%nat.
Proof.
  destruct (triggers_state node n c) as (Hres & Hcnt & Hoth & _).
  split; [exact Hres|]. split; [exact Hcnt|]. split; [exact Hoth|].
  clear Hres Hcnt Hoth. induction n as [|n IH]; [simpl; lia|].
  destruct (triggers_state node n c) as (Hres & _).
  cbn [triggers]. rewrite (bind_done _ _ c tt Hres). cbn [result final events].
  rewrite sends_app, length_app.
  destruct (sendRetryReceipt_effects node (final (triggers node n c))) as (_ & _ & Hs & _).
  rewrite Hs. pose proof (retry_sends_short node (final (triggers node n c))). lia.
Qed.

(** X13.  Escalation across triggers.  When the counter of the unit's
    id is not negative and the account serialises, [n] triggers in a row
    send exactly [n] retry units, and the one at position [k] has no
    [keys] child exactly when it is the first retry ever counted for the
    id (the counter was 0 and [k] is 0); every later one has a [keys]
    child. *)
Theorem retry_escalates_across_triggers (node : Node) (n : nat) (c : Client) (di : bytes) :
  (0 <= retry_count c (retry_id node))%Z ->
  Marshal (SessionAccount (session c)) = Some di ->
  length (sends (events (triggers node n c))) = n /\
  forall k u, sends (events (triggers node n c)) !! k = Some u ->
    is_retry_unit u = true /\
    (GetChildrenByTag u "keys" = [] <-> retry_count c (retry_id node) = 0%Z /\ k = 0%nat).
Proof.
  intros Hold Hm. induction n as [|n IH].
  - split; [reflexivity|]. intros k u H. discriminate.
  - destruct IH as [Hlen Hall].
    destruct (triggers_state node n c) as (Hres & Hcnt & _ & Hacc).
    cbn [triggers]. rewrite (bind_done _ _ c tt Hres). cbn [result final events].
    set (c' := final (triggers node n c)) in *.
    destruct (sendRetryReceipt_effects node c') as (_ & _ & Hs & _).
    rewrite sends_app, Hs.
    assert (Hlast : exists u,
              retry_sends node c' = [u] /\ is_retry_unit u = true /\
              (GetChildrenByTag u "keys" = [] <->
               retry_count c (retry_id node) = 0%Z /\ n = 0%nat)).
    { destruct (Z.le_gt_cases (retry_count c' (retry_id node)) 0) as [Hle|Hgt].
      - rewrite retry_sends_first by assumption. eexists. split; [reflexivity|].
        split; [apply is_retry_unit_retryPayload|].
        rewrite keys_of_retryPayload. split; [intros _; lia|reflexivity].
      - rewrite <- Hacc in Hm.
        destruct (retry_sends_bundle node c' di Hgt Hm) as (key0 & _ & ->).
        eexists. split; [reflexivity|].
        split; [now rewrite is_retry_unit_appendChild, is_retry_unit_retryPayload|].
        rewrite keys_of_bundle. split; [discriminate|lia]. }
    destruct Hlast as (u' & -> & Hu1 & Hu2).
    split; [rewrite length_app, Hlen; simpl; lia|].
    intros k u Hk.
    destruct (Nat.lt_ge_cases k n) as [Hlt|Hge].
    + rewrite lookup_app_l in Hk by lia. now apply Hall.
    + rewrite lookup_app_r in Hk by lia. rewrite Hlen in Hk.
      destruct (k - n)%nat as [|j] eqn:Ej; [|destruct j; discriminate].
      inversion Hk; subst u. assert (k = n) by lia. subst k.
      split; [exact Hu1|exact Hu2].
Qed.

End RetryMore.

(** The second of three triggers for a fresh id, with an account that
    serialises to [09]. *)
Lemma retry_escalates_across_triggers_witness :
  length (sends (events (triggers (Fake.unit_of []) 3 (Fake.client (Some [Byte.x09]) ∅))))
    = 3%nat /\
  exists u,
    sends (events (triggers (Fake.unit_of []) 3 (Fake.client (Some [Byte.x09]) ∅))) !! 1%nat
      = Some u /\
    is_retry_unit u = true /\ GetChildrenByTag u "keys" <> [].
Proof.
  assert (H0 : (0 <= retry_count (Fake.client (Some [Byte.x09]) ∅)
                        (retry_id (Fake.unit_of [])))%Z)
    by (vm_compute; intros H; discriminate H).
  destruct (retry_escalates_across_triggers (Fake.unit_of []) 3
              (Fake.client (Some [Byte.x09]) ∅) [Byte.x09] H0 eq_refl) as [Hlen Hall].
  split; [exact Hlen|].
  destruct (sends (events (triggers (Fake.unit_of []) 3 (Fake.client (Some [Byte.x09]) ∅))))
    as [|u0 [|u1 l]] eqn:E; try discriminate.
  exists u1. split; [reflexivity|].
  destruct (Hall 1%nat u1 eq_refl) as [Hr Hk]. split; [exact Hr|].
  intros H. apply Hk in H. destruct H as [_ H]. discriminate.
Defined.

(** The node sent by the first trigger for the unit with id [A]. *)
Lemma retry_unit_shape_witness :
  exists u,
    In u (sends (events (sendRetryReceipt (Fake.unit_of []) (Fake.client None ∅)))) /\
    Tag u = "receipt" /\
    Attrs u !! "id" = Some (AString "A") /\
    Attrs u !! "to" = Some (AJID Fake.alice) /\
    Attrs u !! "recipient" = None.
Proof.
  destruct (sends (events (sendRetryReceipt (Fake.unit_of []) (Fake.client None ∅))))
    as [|u l] eqn:E; [discriminate|].
  exists u. split; [now left|].
  destruct (retry_unit_shape (Fake.unit_of []) u (Fake.client None ∅))
    as (Ht & Hid & _ & Hto & Hre & _).
  - rewrite E. now left.
  - split; [exact Ht|]. split; [exact Hid|]. split; [exact Hto|exact Hre].
Defined.

(** ** Receipts and the dispatcher *)

Section ReceiptsMore.
Context `{Ext : Externals}.

Ltac lookup_attrs :=
  repeat (first [ rewrite lookup_insert_eq
                | rewrite lookup_insert_ne by discriminate
                | rewrite lookup_empty ]).

(** The run of a send followed by the warning on a transport error. *)
Lemma send_then_warn_run (n : Node) (l : log_line) (c : Client) :
  bind (sendNode n) (fun err : bool => if err then emit (ELog l) else ret tt) c
  = mkRun (Done tt) c (ESend n :: (if sendNodeFails n then [ELog l] else [])).
Proof.
  unfold bind, sendNode, emit, ret. cbn [result final events].
  now destruct (sendNodeFails n).
Qed.

Lemma sendMessageReceipt_run (info : MessageInfo) (c : Client) :
  sendMessageReceipt info c
  = mkRun (Done tt) c
      (ESend {| Tag := "receipt"; Attrs := receiptAttrs (session c) info; Content := CNil |}
       :: (if sendNodeFails {| Tag := "receipt"; Attrs := receiptAttrs (session c) info;
                               Content := CNil |}
           then [ELog (LogReceiptError (ID info))] else [])).
Proof.
  unfold sendMessageReceipt. unfold bind at 1. cbn [get result final events].
  rewrite send_then_warn_run. reflexivity.
Qed.

Lemma receiptAttrs_lookup (s : Session) (info : MessageInfo) :
  receiptAttrs s info !! "id" = Some (AString (ID info)) /\
  receiptAttrs s info !! "type"
    = Some (AString (if String.eqb (User (From info)) (User (SessionID s))
                     then "sender" else "inactive")) /\
  receiptAttrs s info !! "to" = Some (AJID (default (From info) (Chat info))) /\
  receiptAttrs s info !! "participant"
    = match Chat info with
      | Some _ => Some (AJID (From info))
      | None => None
      end /\
  receiptAttrs s info !! "recipient"
    = match Chat info with
      | Some _ => None
      | None => if String.eqb (User (From info)) (User (SessionID s))
                then AJID <$> Recipient info else None
      end.
Proof.
  unfold receiptAttrs.
  destruct (Chat info) as [chat|],
           (String.eqb (User (From info)) (User (SessionID s))),
           (Recipient info) as [re|];
    simpl; repeat split; lookup_attrs; reflexivity.
Qed.

(** X14.  A delivery receipt.  [sendMessageReceipt] always returns and
    leaves the client as it was; it hands exactly one node to the
    transport: a [receipt] without content that is not a retry unit, with
    the id of the message, the type [sender] when the sender's user is the
    local user and [inactive] otherwise, addressed to the chat in a group
    and to the sender otherwise, naming the sender as [participant] only in
    a group, and echoing the [recipient] only for a direct message of the
    local user. *)
Theorem sendMessageReceipt_shape (info : MessageInfo) (c : Client) :
  result (sendMessageReceipt info c) = Done tt /\
  final (sendMessageReceipt info c) = c /\
  exists u,
    sends (events (sendMessageReceipt info c)) = [u] /\
    Tag u = "receipt" /\ Content u = CNil /\ is_retry_unit u = false /\
    Attrs u !! "id" = Some (AString (ID info)) /\
    Attrs u !! "type"
      = Some (AString (if String.eqb (User (From info)) (User (SessionID (session c)))
                       then "sender" else "inactive")) /\
    Attrs u !! "to" = Some (AJID (default (From info) (Chat info))) /\
    Attrs u !! "participant"
      = match Chat info with
        | Some _ => Some (AJID (From info))
        | None => None
        end /\
    Attrs u !! "recipient"
      = match Chat info with
        | Some _ => None
        | None => if String.eqb (User (From info)) (User (SessionID (session c)))
                  then AJID <$> Recipient info else None
        end.
Proof.
  rewrite sendMessageReceipt_run. cbn [result final events].
  split; [reflexivity|]. split; [reflexivity|].
  destruct (receiptAttrs_lookup (session c) info) as (Hid & Hty & Hto & Hpa & Hre).
  eexists. split.
  - destruct (sendNodeFails _); reflexivity.
  - cbn [Tag Attrs Content]. split; [reflexivity|]. split; [reflexivity|].
    split.
    + unfold is_retry_unit. cbn [Tag Attrs]. rewrite Hty.
      now destruct (String.eqb (User (From info)) (User (SessionID (session c)))).
    + now repeat split.
Qed.

Lemma sendProtocolMessageReceipt_run (id msgType : string) (c : Client) :
  id <> "" ->
  sendProtocolMessageReceipt id msgType c
  = mkRun (Done tt) c
      (ESend {| Tag := "receipt";
                Attrs := <["id" := AString id]> (<["type" := AString msgType]>
                  (<["to" := AJID (NewJID (User (SessionID (session c))) UserServer)]> ∅));
                Content := CNil |}
       :: (if sendNodeFails
                {| Tag := "receipt";
                   Attrs := <["id" := AString id]> (<["type" := AString msgType]>
                     (<["to" := AJID (NewJID (User (SessionID (session c))) UserServer)]> ∅));
                   Content := CNil |}
           then [ELog (LogProtocolReceiptError id)] else [])).
Proof.
  intros Hid. unfold sendProtocolMessageReceipt.
  destruct id as [|a id']; [now destruct Hid|]. cbn [list_ascii_of_string].
  change (len (a :: list_ascii_of_string id') =? 0)%Z with false.
  unfold bind at 1. cbn [get result final events].
  rewrite send_then_warn_run. reflexivity.
Qed.

(** X15.  A protocol-message receipt.  For the empty id
    [sendProtocolMessageReceipt] does nothing at all.  For any other id
    it returns, leaves the client as it was, and hands exactly one node to
    the transport: a [receipt] without content whose only attributes are
    the id, the given type, and as [to] the local user on the user
    server. *)
Theorem sendProtocolMessageReceipt_shape (id msgType : string) (c : Client) :
  (id = "" -> sendProtocolMessageReceipt id msgType c = mkRun (Done tt) c []) /\
  (id <> "" ->
     result (sendProtocolMessageReceipt id msgType c) = Done tt /\
     final (sendProtocolMessageReceipt id msgType c) = c /\
     exists u,
       sends (events (sendProtocolMessageReceipt id msgType c)) = [u] /\
       Tag u = "receipt" /\ Content u = CNil /\
       Attrs u = <["id" := AString id]> (<["type" := AString msgType]>
                   (<["to" := AJID (NewJID (User (SessionID (session c))) UserServer)]> ∅))).
Proof.
  split.
  - intros ->. reflexivity.
  - intros Hid. rewrite (sendProtocolMessageReceipt_run id msgType c Hid).
    cbn [result final events]. split; [reflexivity|]. split; [reflexivity|].
    eexists. split; [destruct (sendNodeFails _); reflexivity|].
    cbn [Tag Attrs Content]. now repeat split.
Qed.

(** History-sync handling only logs: it returns and leaves the client
    as it was. *)
Lemma handleHistorySyncNotification_run (notif : HistorySyncNotification) (c : Client) :
  exists l, handleHistorySyncNotification notif c = mkRun (Done tt) c [ELog l].
Proof.
  unfold handleHistorySyncNotification.
  destruct (downloadMedia notif) as [data|]; [|eexists; reflexivity].
  destruct (zlibNewReader data) as [reader|]; [|eexists; reflexivity].
  destruct (ReadAll reader) as [rawData|]; [|eexists; reflexivity].
  destruct (UnmarshalHistorySync rawData); eexists; reflexivity.
Qed.

(** The [type] attributes of the nodes sent, in order. *)
Lemma sent_types_app (e1 e2 : list event) :
  omap (fun u : Node => Attrs u !! "type") (sends (e1 ++ e2))
  = omap (fun u : Node => Attrs u !! "type") (sends e1)
    ++ omap (fun u : Node => Attrs u !! "type") (sends e2).
Proof. rewrite sends_app. apply omap_app. Qed.

Lemma sendProtocolMessageReceipt_types (id msgType : string) (c : Client) :
  id <> "" ->
  result (sendProtocolMessageReceipt id msgType c) = Done tt /\
  final (sendProtocolMessageReceipt id msgType c) = c /\
  omap (fun u : Node => Attrs u !! "type")
       (sends (events (sendProtocolMessageReceipt id msgType c)))
    = [AString msgType].
Proof.
  intros Hid. rewrite (sendProtocolMessageReceipt_run id msgType c Hid).
  cbn [result final events]. split; [reflexivity|]. split; [reflexivity|].
  destruct (sendNodeFails _); cbn [sends omap list_omap Attrs];
    lookup_attrs; reflexivity.
Qed.

(** X16.  Protocol-message acknowledgements.  [handleProtocolMessage]
    always returns and leaves the client as it was.  For a message with a
    non-empty id it sends one [hist_sync] receipt when the payload carries
    a history-sync notification, whatever the download gives, and then one
    [peer_msg] receipt when the category is [peer], so a history sync in a
    peer message is acknowledged twice; for the empty id it sends
    nothing. *)
Theorem handleProtocolMessage_receipts (info : MessageInfo) (msg : ProtoMessage) (c : Client) :
  result (handleProtocolMessage info msg c) = Done tt /\
  final (handleProtocolMessage info msg c) = c /\
  (ID info = "" -> sends (events (handleProtocolMessage info msg c)) = []) /\
  (ID info <> "" ->
     omap (fun u : Node => Attrs u !! "type")
          (sends (events (handleProtocolMessage info msg c)))
       = match GetHistorySyncNotification msg with
         | Some _ => [AString "hist_sync"]
         | None => []
         end
         ++ (if String.eqb (Category info) "peer" then [AString "peer_msg"] else [])).
Proof.
  unfold handleProtocolMessage.
  destruct (String.string_dec (ID info) "") as [He|Hne].
  - (* empty id: both receipts are no-ops *)
    rewrite He.
    assert (Hfirst : exists e,
              (match GetHistorySyncNotification msg with
               | Some notif =>
                   bind (handleHistorySyncNotification notif)
                        (fun _ => sendProtocolMessageReceipt "" "hist_sync")
               | None => ret tt
               end) c = mkRun (Done tt) c e /\ sends e = []).
    { destruct (GetHistorySyncNotification msg) as [notif|]; [|now eexists].
      destruct (handleHistorySyncNotification_run notif c) as [l Hl].
      unfold bind. rewrite Hl. cbn. now eexists. }
    destruct Hfirst as (e & Hrun & Hse).
    rewrite (bind_done _ _ c tt) by (now rewrite Hrun).
    rewrite Hrun. cbn [result final events].
    destruct (String.eqb (Category info) "peer"); cbn [ret sendProtocolMessageReceipt
        list_ascii_of_string len length Z.of_nat Z.eqb result final events];
      rewrite ?app_nil_r; (split; [reflexivity|]); (split; [reflexivity|]);
      (split; [intros _; exact Hse|intros H; now destruct H]).
  - assert (Hfirst : exists e,
              (match GetHistorySyncNotification msg with
               | Some notif =>
                   bind (handleHistorySyncNotification notif)
                        (fun _ => sendProtocolMessageReceipt (ID info) "hist_sync")
               | None => ret tt
               end) c = mkRun (Done tt) c e /\
              omap (fun u : Node => Attrs u !! "type") (sends e)
                = match GetHistorySyncNotification msg with
                  | Some _ => [AString "hist_sync"]
                  | None => []
                  end).
    { destruct (GetHistorySyncNotification msg) as [notif|]; [|now eexists].
      destruct (handleHistorySyncNotification_run notif c) as [l Hl].
      destruct (sendProtocolMessageReceipt_types (ID info) "hist_sync" c Hne)
        as (Hr & Hf & Ht).
      unfold bind at 1. rewrite Hl. cbn [result final events].
      eexists. split.
      - f_equal; [exact Hr|exact Hf].
      - cbn [app]. change (sends (ELog l :: ?e)) with (sends e). exact Ht. }
    destruct Hfirst as (e & Hrun & Hty).
    rewrite (bind_done _ _ c tt) by (now rewrite Hrun).
    rewrite Hrun. cbn [result final events].
    destruct (String.eqb (Category info) "peer").
    + destruct (sendProtocolMessageReceipt_types (ID info) "peer_msg" c Hne)
        as (Hr & Hf & Ht).
      split; [exact Hr|]. split; [exact Hf|]. split; [intros H; now destruct Hne|].
      intros _. now rewrite sent_types_app, Hty, Ht.
    + cbn [ret result final events]. split; [reflexivity|]. split; [reflexivity|].
      split; [intros H; now destruct Hne|].
      intros _. now rewrite sent_types_app, Hty.
Qed.

Lemma sendProtocolMessageReceipt_state (id msgType : string) (c : Client) :
  exists e, sendProtocolMessageReceipt id msgType c = mkRun (Done tt) c e.
Proof.
  destruct (String.string_dec id "") as [->|Hne].
  - now eexists.
  - rewrite (sendProtocolMessageReceipt_run id msgType c Hne). now eexists.
Qed.

Lemma handleProtocolMessage_state (info : MessageInfo) (msg : ProtoMessage) (c : Client) :
  exists e, handleProtocolMessage info msg c = mkRun (Done tt) c e.
Proof.
  unfold handleProtocolMessage.
  assert (Hfirst : exists e,
            (match GetHistorySyncNotification msg with
             | Some notif =>
                 bind (handleHistorySyncNotification notif)
                      (fun _ => sendProtocolMessageReceipt (ID info) "hist_sync")
             | None => ret tt
             end) c = mkRun (Done tt) c e).
  { destruct (GetHistorySyncNotification msg) as [notif|]; [|now eexists].
    destruct (handleHistorySyncNotification_run notif c) as [l Hl].
    destruct (sendProtocolMessageReceipt_state (ID info) "hist_sync" c) as [e He].
    rewrite (bind_done _ _ c tt) by (now rewrite Hl).
    rewrite Hl. cbn [result final events]. rewrite He. now eexists. }
  destruct Hfirst as [e Hrun].
  rewrite (bind_done _ _ c tt) by (now rewrite Hrun).
  rewrite Hrun. cbn [result final events].
  destruct (String.eqb (Category info) "peer").
  - destruct (sendProtocolMessageReceipt_state (ID info) "peer_msg" c) as [e' He'].
    rewrite He'. now eexists.
  - now eexists.
Qed.

Lemma handleDecryptedMessage_run (info : MessageInfo) (msg : ProtoMessage) (c : Client) :
  (GetSenderKeyDistributionMessage msg = None \/ Chat info <> None) ->
  exists pre,
    handleDecryptedMessage info msg c
    = mkRun (Done tt) (after_distribution info msg c)
            (pre ++ [EDispatch {| Info := info; Msg := msg |}]).
Proof.
  intros H. unfold handleDecryptedMessage.
  rewrite (bind_done _ _ c tt) by reflexivity. cbn [emit result final events].
  assert (Hsk : exists e1,
            (match GetSenderKeyDistributionMessage msg with
             | Some rawSKDMsg =>
                 match Chat info with
                 | Some chat =>
                     handleSenderKeyDistributionMessage chat (From info) rawSKDMsg
                 | None => crash NilDereference
                 end
             | None => ret tt
             end) c = mkRun (Done tt) (after_distribution info msg c) e1).
  { unfold after_distribution.
    destruct (GetSenderKeyDistributionMessage msg) as [raw|]; [|now eexists].
    destruct (Chat info) as [chat|];
      [|destruct H as [H|H]; [discriminate|now destruct H]].
    unfold handleSenderKeyDistributionMessage.
    destruct (NewSenderKeyDistributionMessageFromBytes raw) as [sdk|]; now eexists. }
  destruct Hsk as [e1 Hsk].
  rewrite (bind_done _ _ c tt) by (now rewrite Hsk).
  rewrite Hsk. cbn [result final events].
  set (c1 := after_distribution info msg c).
  assert (Hpr : exists e2,
            (if GetProtocolMessage msg then handleProtocolMessage info msg else ret tt) c1
            = mkRun (Done tt) c1 e2).
  { destruct (GetProtocolMessage msg); [apply handleProtocolMessage_state|now eexists]. }
  destruct Hpr as [e2 Hpr].
  rewrite (bind_done _ _ c1 tt) by (now rewrite Hpr).
  rewrite Hpr. cbn [dispatchEvent emit result final events].
  exists ([ELog (LogReceived {| Info := info; Msg := msg |})] ++ e1 ++ e2).
  now rewrite <- !app_assoc.
Qed.

(** X17.  Dispatch is unconditional.  In a chat, or for a payload
    without a sender-key distribution, [handleDecryptedMessage] always
    returns, whatever the protocol-message handling does; it dispatches
    the message exactly once, as its last action; it sends no retry unit,
    acknowledges nothing and decrypts nothing; and it changes nothing of
    the client but the Signal store, which has processed the sender-key
    distribution when there is one and it parses. *)
Theorem handleDecryptedMessage_dispatches
    (info : MessageInfo) (msg : ProtoMessage) (c : Client) :
  (GetSenderKeyDistributionMessage msg = None \/ Chat info <> None) ->
  result (handleDecryptedMessage info msg c) = Done tt /\
  (exists pre,
     events (handleDecryptedMessage info msg c)
       = pre ++ [EDispatch {| Info := info; Msg := msg |}] /\
     dispatches pre = []) /\
  retry_units (events (handleDecryptedMessage info msg c)) = [] /\
  acks (events (handleDecryptedMessage info msg c)) = [] /\
  decrypt_attempts (events (handleDecryptedMessage info msg c)) = [] /\
  final (handleDecryptedMessage info msg c) = after_distribution info msg c.
Proof.
  intros H. destruct (handleDecryptedMessage_run info msg c H) as [pre Hrun].
  destruct (tame_handleDecryptedMessage info msg c) as (_ & Hr & Ha & Hc & Hd).
  rewrite Hrun in *. cbn [result final events] in *.
  split; [reflexivity|]. split.
  - exists pre. split; [reflexivity|].
    rewrite dispatches_app in Hd.
    change (dispatches [EDispatch {| Info := info; Msg := msg |}])
      with [{| Info := info; Msg := msg |}] in Hd.
    change [{| Info := info; Msg := msg |}]
      with ([] ++ [{| Info := info; Msg := msg |}]) in Hd at 2.
    now apply app_inv_tail in Hd.
  - now repeat split.
Qed.

End ReceiptsMore.

(** ** Whole units: what processing one inbound unit can and cannot do *)

Section UnitsMore.
Context `{Ext : Externals}.

Variable gs : string.   (* waBinary.GroupServer *)

Lemma attr_jid_lookup (m : gmap string attr_value) (k : string) (j : FullJID) :
  attr_jid m k = Some j -> m !! k = Some (AJID j).
Proof.
  unfold attr_jid. destruct (m !! k) as [[| | |]|]; try discriminate.
  now intros [= ->].
Qed.

(** X18.  Both answers go back the same way.  For the info parsed from a
    node, the retry unit and the delivery receipt carry the same id and
    the same [to] address, the [from] attribute of the node (the group in
    a group chat, the sender otherwise); in a group chat both name the
    same [participant]. *)
Theorem receipts_answer_the_sender (node : Node) (info : MessageInfo) (s : Session) :
  parseMessageInfo gs node = inl info ->
  Attrs node !! "from" = Some (AJID (default (From info) (Chat info))) /\
  retryAttrs node (retry_id node) !! "to" = Some (AJID (default (From info) (Chat info))) /\
  receiptAttrs s info !! "to" = Some (AJID (default (From info) (Chat info))) /\
  retryAttrs node (retry_id node) !! "id" = receiptAttrs s info !! "id" /\
  (Chat info <> None ->
     retryAttrs node (retry_id node) !! "participant"
       = receiptAttrs s info !! "participant").
Proof.
  intros H.
  destruct (retryAttrs_lookup node (retry_id node)) as (Hid & Hto & _ & Hpa).
  destruct (receiptAttrs_lookup s info) as (Hid' & _ & Hto' & Hpa' & _).
  pose proof (parseMessageInfo_id gs node info H) as Hi.
  assert (Hrid : retry_id node = ID info) by (unfold retry_id; now rewrite Hi).
  rewrite Hid, Hto, Hpa, Hid', Hto', Hpa', Hrid.
  unfold parseMessageInfo in H.
  destruct (attr_jid (Attrs node) "from") as [from|] eqn:Ef; [|discriminate].
  apply attr_jid_lookup in Ef. unfold attr. rewrite Ef. cbn [default].
  destruct (String.eqb (Server from) gs).
  - destruct (attr_jid (Attrs node) "participant") as [p|] eqn:Ep; [|discriminate].
    apply attr_jid_lookup in Ep.
    destruct (attr_string (Attrs node) "id") as [id|]; [|discriminate].
    destruct (attr_string (Attrs node) "t") as [ts|]; [|discriminate].
    destruct (ParseInt ts) as [t|]; [|discriminate].
    injection H as <-. cbn. now repeat split.
  - destruct (attr_string (Attrs node) "id") as [id|]; [|discriminate].
    destruct (attr_string (Attrs node) "t") as [ts|]; [|discriminate].
    destruct (ParseInt ts) as [t|]; [|discriminate].
    injection H as <-. cbn. repeat split. intros Hc. now destruct Hc.
Qed.

(** *** The loop invariant *)

(** An iteration that makes no decrypt call goes on to the next child,
    at most logging. *)
Lemma decryptChild_no_call (info : MessageInfo) (node child : Node) (handled : bool) :
  decrypt_call info child = None ->
  exists e,
    (forall c, decryptChild info node child handled c = mkRun (Done (Next handled)) c e) /\
    (e = [] \/ exists l, e = [ELog l]).
Proof.
  unfold decrypt_call, decryptChild. intros H.
  destruct (String.eqb (Tag child) "enc"); simpl; [|exists []; now split; [|left]].
  destruct (attr_string (Attrs child) "type") as [encType|];
    [|exists []; now split; [|left]].
  destruct (String.eqb encType "pkmsg" || String.eqb encType "msg"); [discriminate|].
  destruct (Chat info) as [chat|].
  - destruct (String.eqb encType "skmsg"); [discriminate|].
    exists [ELog (LogUnhandled encType info)]. split; [reflexivity|right; now eexists].
  - exists [ELog (LogUnhandled encType info)].
    split; [now destruct (String.eqb encType "skmsg")|right; now eexists].
Qed.

Lemma decryptChild_invariant (info : MessageInfo) (node child : Node) (handled : bool)
    (c : Client) :
  loop_invariant info node (if String.eqb (Tag child) "enc" then 1 else 0) handled c
    (decryptChild info node child handled c).
Proof.
  unfold loop_invariant.
  destruct (decrypt_call info child) as [d|] eqn:Ed.
  - (* a decrypt call is made *)
    pose proof (decrypt_call_enc info child d Ed) as Htag.
    apply String.eqb_eq in Htag. rewrite Htag.
    destruct (decrypt_call_effects info child d c Ed) as (Hs & Hru & Ha & Hdi & Hat).
    destruct (result (d c)) as [[plain|err]|p] eqn:Er.
    + (* decrypted *)
      rewrite (decryptChild_call info node child handled d Ed).
      rewrite (bind_done _ _ c _ Er). unfold handleDecryptResult.
      destruct (Unmarshal plain) as [msg|] eqn:Eu.
      * destruct (tame_handleDecryptedMessage info msg (final (d c)))
          as (HsH & HruH & HaH & HatH & HdiH).
        destruct (result (handleDecryptedMessage info msg (final (d c)))) as [[]|p] eqn:Eh.
        -- rewrite (bind_done _ _ (final (d c)) tt Eh). cbn [ret result final events].
           rewrite app_nil_r, acks_app, dispatches_app, decrypt_attempts_app,
             retry_units_app, !length_app.
           rewrite Ha, HaH, Hdi, HdiH, Hru, HruH, HatH, Hat. cbn.
           split; [reflexivity|]. split; [lia|]. split; [lia|].
           split; [now repeat constructor|].
           split; [eapply same_but_store_trans; eassumption|].
           split; [reflexivity|]. split; [intros _; right; discriminate|reflexivity].
        -- rewrite (bind_crashed _ _ (final (d c)) p Eh). cbn [result final events].
           rewrite acks_app, dispatches_app, decrypt_attempts_app,
             retry_units_app, !length_app.
           rewrite Ha, HaH, Hdi, HdiH, Hru, HruH, HatH, Hat. cbn.
           split; [reflexivity|]. split; [lia|]. split; [lia|].
           split; [constructor|].
           split; [eapply same_but_store_trans; eassumption|reflexivity].
      * rewrite (bind_done _ _ (final (d c)) tt) by reflexivity.
        cbn [emit ret result final events].
        rewrite acks_app, dispatches_app, decrypt_attempts_app,
          retry_units_app, !length_app.
        rewrite Ha, Hdi, Hru, Hat. cbn.
        split; [reflexivity|]. split; [lia|]. split; [lia|].
        split; [constructor|].
        split; [exact Hs|]. split; [reflexivity|].
        split; [intros ->; now left|intros [->|Hn]; [reflexivity|now destruct Hn]].
    + (* decrypt failed: the retry *)
      rewrite (decryptChild_failed info node child handled d c err Ed Er).
      cbn [result final events].
      destruct (sendRetryReceipt_effects node (final (d c)))
        as (_ & _ & HsR & HdiR & HaR & HatR).
      change (ELog (LogDecryptError info err) :: events (sendRetryReceipt node (final (d c))))
        with ([ELog (LogDecryptError info err)]
              ++ events (sendRetryReceipt node (final (d c)))).
      assert (HruR : retry_units (events (sendRetryReceipt node (final (d c))))
                     = retry_sends node (final (d c)))
        by (unfold retry_units; rewrite HsR; apply retry_sends_units).
      rewrite !acks_app, !dispatches_app, !decrypt_attempts_app, !retry_units_app,
        !length_app.
      rewrite Ha, HaR, Hdi, HdiR, Hru, HruR, HatR, Hat.
      cbn [app length Nat.add acks dispatches decrypt_attempts retry_units sends
           omap list_omap List.filter].
      split; [reflexivity|]. split; [lia|]. split; [lia|].
      split; [constructor|].
      exists (final (d c)). split; [exact Hs|]. split; reflexivity.
    + (* the decrypt call panicked *)
      rewrite (decryptChild_call info node child handled d Ed).
      rewrite (bind_crashed _ _ c p Er). cbn [result final events].
      rewrite Ha, Hdi, Hru, Hat. cbn.
      split; [reflexivity|]. split; [lia|]. split; [lia|].
      split; [constructor|]. now split.
  - (* no decrypt call *)
    destruct (decryptChild_no_call info node child handled Ed) as (e & Hrun & He).
    rewrite Hrun. cbn [result final events].
    assert (Hobs : acks e = [] /\ dispatches e = [] /\ decrypt_attempts e = [] /\
                   retry_units e = [])
      by (destruct He as [->|[l ->]]; now repeat split).
    destruct Hobs as (-> & -> & -> & ->). cbn.
    split; [reflexivity|]. split; [lia|]. split; [lia|].
    split; [constructor|].
    split; [apply same_but_store_refl|]. split; [reflexivity|].
    split; [intros ->; now left|intros [->|Hn]; [reflexivity|now destruct Hn]].
Qed.

Lemma count_enc_cons (child : Node) (l : list Node) :
  length (filter (fun ch => Tag ch = "enc") (child :: l))
  = ((if String.eqb (Tag child) "enc" then 1 else 0)
     + length (filter (fun ch => Tag ch = "enc") l))%nat.
Proof.
  destruct (String.eqb (Tag child) "enc") eqn:E.
  - apply String.eqb_eq in E. now rewrite filter_cons_True.
  - apply String.eqb_neq in E. now rewrite filter_cons_False.
Qed.

Lemma decryptLoop_invariant (info : MessageInfo) (node : Node) (l : list Node)
    (handled : bool) (c : Client) :
  loop_invariant info node (length (filter (fun ch => Tag ch = "enc") l)) handled c
    (decryptLoop info node l handled c).
Proof.
  revert handled c. induction l as [|child l IH]; intros handled c.
  - unfold loop_invariant. cbn.
    split; [reflexivity|]. split; [lia|]. split; [lia|]. split; [constructor|].
    split; [apply same_but_store_refl|]. split; [reflexivity|].
    split; [intros ->; now left|intros [->|Hn]; [reflexivity|now destruct Hn]].
  - rewrite count_enc_cons. cbn [decryptLoop].
    pose proof (decryptChild_invariant info node child handled c) as Hc.
    unfold loop_invariant in Hc. destruct Hc as (Ha & Hle1 & Hle2 & Hfa & Hend).
    destruct (result (decryptChild info node child handled c)) as [[h1|]|p] eqn:Er.
    + rewrite (bind_done _ _ c _ Er). cbn [result final events].
      destruct Hend as (Hs & Hru & Hh).
      specialize (IH h1 (final (decryptChild info node child handled c))).
      unfold loop_invariant in IH. destruct IH as (Ha' & Hle1' & Hle2' & Hfa' & Hend').
      unfold loop_invariant. cbn [result final events].
      rewrite acks_app, dispatches_app, decrypt_attempts_app, retry_units_app, !length_app.
      rewrite Ha, Ha', Hru.
      split; [reflexivity|]. split; [lia|]. split; [lia|].
      split; [now apply Forall_app|].
      destruct (result (decryptLoop info node l h1
                          (final (decryptChild info node child handled c))))
        as [[h2|]|p'].
      * destruct Hend' as (Hs' & Hru' & Hh').
        split; [eapply same_but_store_trans; eassumption|]. split; [exact Hru'|].
        rewrite Hh', Hh. split.
        -- intros [[H|H]|H]; [now left|right|right].
           ++ intros E. apply app_eq_nil in E. now destruct E.
           ++ intros E. apply app_eq_nil in E. now destruct E.
        -- intros [H|H]; [now left; left|].
           destruct (dispatches (events (decryptChild info node child handled c)));
             [right; exact H|left; right; discriminate].
      * destruct Hend' as (c1 & Hs' & Hf' & Hru').
        exists c1. split; [eapply same_but_store_trans; eassumption|]. now split.
      * destruct Hend' as (Hs' & Hru').
        split; [eapply same_but_store_trans; eassumption|exact Hru'].
    + rewrite (bind_done _ _ c _ Er). unfold loop_invariant.
      cbn [ret result final events]. rewrite app_nil_r.
      split; [exact Ha|]. split; [exact Hle1|]. split; [lia|]. split; [exact Hfa|].
      exact Hend.
    + rewrite (bind_crashed _ _ c p Er). unfold loop_invariant.
      cbn [result final events].
      split; [exact Ha|]. split; [exact Hle1|]. split; [lia|]. split; [exact Hfa|].
      exact Hend.
Qed.

(** *** [decryptMessages] as a whole *)

Lemma sendMessageReceipt_obs (info : MessageInfo) (c : Client) :
  result (sendMessageReceipt info c) = Done tt /\
  final (sendMessageReceipt info c) = c /\
  sends (events (sendMessageReceipt info c))
    = [{| Tag := "receipt"; Attrs := receiptAttrs (session c) info; Content := CNil |}] /\
  retry_units (events (sendMessageReceipt info c)) = [] /\
  dispatches (events (sendMessageReceipt info c)) = [] /\
  acks (events (sendMessageReceipt info c)) = [] /\
  decrypt_attempts (events (sendMessageReceipt info c)) = [].
Proof.
  rewrite sendMessageReceipt_run. cbn [result final events].
  destruct (receiptAttrs_lookup (session c) info) as (_ & Hty & _).
  assert (Hnot : is_retry_unit
                   {| Tag := "receipt"; Attrs := receiptAttrs (session c) info;
                      Content := CNil |} = false).
  { unfold is_retry_unit. cbn [Tag Attrs]. rewrite Hty.
    now destruct (String.eqb (User (From info)) (User (SessionID (session c)))). }
  split; [reflexivity|]. split; [reflexivity|].
  destruct (sendNodeFails _);
    cbn [sends retry_units dispatches acks decrypt_attempts omap list_omap List.filter];
    rewrite Hnot; now repeat split.
Qed.

(** The run of [decryptMessages], by the way the loop leaves. *)
Lemma decryptMessages_run (info : MessageInfo) (node : Node) (c : Client) :
  (len (GetChildrenByTag node "unavailable") =? len (GetChildren node))%Z = false ->
  decryptMessages info node c
  = match result (decryptLoop info node (GetChildren node) false c) with
    | Done (Next true) =>
        mkRun (Done tt) (final (decryptLoop info node (GetChildren node) false c))
          ([ELog (LogDecrypting (len (GetChildren node)) info)] ++
           events (decryptLoop info node (GetChildren node) false c) ++
           events (sendMessageReceipt info
                     (final (decryptLoop info node (GetChildren node) false c))) ++
           [EAck node])
    | Done _ =>
        mkRun (Done tt) (final (decryptLoop info node (GetChildren node) false c))
          ([ELog (LogDecrypting (len (GetChildren node)) info)] ++
           events (decryptLoop info node (GetChildren node) false c))
    | Crashed p =>
        mkRun (Crashed p) (final (decryptLoop info node (GetChildren node) false c))
          ([ELog (LogDecrypting (len (GetChildren node)) info)] ++
           events (decryptLoop info node (GetChildren node) false c))
    end.
Proof.
  intros Hne. unfold decryptMessages. rewrite Hne.
  rewrite (bind_done _ _ c tt) by reflexivity. cbn [emit result final events].
  destruct (result (decryptLoop info node (GetChildren node) false c))
    as [[[|]|]|p] eqn:Er.
  - rewrite (bind_done _ _ c _ Er). cbn [result final events].
    destruct (sendMessageReceipt_obs info
                (final (decryptLoop info node (GetChildren node) false c)))
      as (Hr & Hf & _).
    rewrite (bind_done _ _ _ tt Hr). cbn [sendAck emit result final events].
    now rewrite Hf.
  - rewrite (bind_done _ _ c _ Er). cbn [ret result final events].
    now rewrite app_nil_r.
  - rewrite (bind_done _ _ c _ Er). cbn [ret result final events].
    now rewrite app_nil_r.
  - rewrite (bind_crashed _ _ c p Er). reflexivity.
Qed.

(** Processing a unit either leaves the client as it was up to the
    Signal store and sends no retry unit, or ends in one retry trigger. *)
Lemma decryptMessages_state (info : MessageInfo) (node : Node) (c : Client) :
  (same_but_store c (final (decryptMessages info node c)) /\
   retry_units (events (decryptMessages info node c)) = []) \/
  (exists c1,
     same_but_store c c1 /\
     final (decryptMessages info node c) = final (sendRetryReceipt node c1) /\
     retry_units (events (decryptMessages info node c)) = retry_sends node c1).
Proof.
  destruct (len (GetChildrenByTag node "unavailable") =? len (GetChildren node))%Z eqn:Et.
  - right. exists c. split; [apply same_but_store_refl|].
    unfold decryptMessages. rewrite Et. split; [reflexivity|].
    destruct (sendRetryReceipt_effects node c) as (_ & _ & Hs & _).
    unfold retry_units. rewrite Hs. apply retry_sends_units.
  - rewrite (decryptMessages_run info node c Et).
    pose proof (decryptLoop_invariant info node (GetChildren node) false c) as Hinv.
    unfold loop_invariant in Hinv. destruct Hinv as (_ & _ & _ & _ & Hend).
    destruct (result (decryptLoop info node (GetChildren node) false c))
      as [[[|]|]|p]; cbn [result final events].
    + destruct Hend as (Hs & Hru & _). left. split; [exact Hs|].
      destruct (sendMessageReceipt_obs info
                  (final (decryptLoop info node (GetChildren node) false c)))
        as (_ & _ & _ & HruM & _).
      now rewrite !retry_units_app, Hru, HruM.
    + destruct Hend as (Hs & Hru & _). left. split; [exact Hs|].
      now rewrite !retry_units_app, Hru.
    + destruct Hend as (c1 & Hs & Hf & Hru). right. exists c1.
      split; [exact Hs|]. split; [exact Hf|].
      now rewrite !retry_units_app, Hru.
    + destruct Hend as (Hs & Hru). left. split; [exact Hs|].
      now rewrite !retry_units_app, Hru.
Qed.

(** X19.  The retry budget of a unit.  Whatever its sub-units are and
    however processing ends, [decryptMessages] sends at most one retry
    unit; the counter of the unit's id goes up by 1 or stays, and goes up
    whenever a retry unit is sent; no other counter moves; the padding
    policy and the account stay as they were. *)
Theorem unit_retry_budget (info : MessageInfo) (node : Node) (c : Client) :
  (length (retry_units (events (decryptMessages info node c))) <= 1)%nat /\
  (retry_count (final (decryptMessages info node c)) (retry_id node)
     = retry_count c (retry_id node) \/
   retry_count (final (decryptMessages info node c)) (retry_id node)
     = (retry_count c (retry_id node) + 1)%Z) /\
  (retry_units (events (decryptMessages info node c)) <> [] ->
     retry_count (final (decryptMessages info node c)) (retry_id node)
       = (retry_count c (retry_id node) + 1)%Z) /\
  (forall id, id <> retry_id node ->
     retry_count (final (decryptMessages info node c)) id = retry_count c id) /\
  CheckPadding (final (decryptMessages info node c)) = CheckPadding c /\
  SessionAccount (session (final (decryptMessages info node c)))
    = SessionAccount (session c).
Proof.
  destruct (decryptMessages_state info node c) as [(Hs & Hru)|(c1 & Hs & Hf & Hru)].
  - apply same_but_store_fields in Hs. destruct Hs as (Hcp & Hm & Hacc & _).
    assert (Hrc : forall id, retry_count (final (decryptMessages info node c)) id
                             = retry_count c id)
      by (intros id; unfold retry_count; now rewrite Hm).
    rewrite Hru. cbn [length].
    split; [lia|]. split; [left; apply Hrc|]. split; [intros H; now destruct H|].
    split; [intros id _; apply Hrc|]. now split.
  - apply same_but_store_fields in Hs. destruct Hs as (Hcp & Hm & Hacc & _).
    assert (Hrc : forall id, retry_count c1 id = retry_count c id)
      by (intros id; unfold retry_count; now rewrite Hm).
    destruct (retry_count_after node c1) as [Hn Ho].
    destruct (sendRetryReceipt_final node c1) as [st Hst].
    rewrite Hru, Hf.
    split; [apply retry_sends_short|].
    split; [right; now rewrite Hn, Hrc|].
    split; [intros _; now rewrite Hn, Hrc|].
    split; [intros id Hne; now rewrite Ho, Hrc|].
    rewrite Hst. cbn. now split.
Qed.

(** X20.  When a unit is acknowledged.  [decryptMessages] acknowledges
    the inbound node at most once, and only that node.  It does so exactly
    when it returns having dispatched at least one message and without
    having counted a retry; the acknowledgement is then the last thing it
    does, no retry unit was sent, and the node sent last is the delivery
    receipt for the unit. *)
Theorem unit_ack_iff (info : MessageInfo) (node : Node) (c : Client) :
  (acks (events (decryptMessages info node c)) = [] \/
   acks (events (decryptMessages info node c)) = [node]) /\
  (acks (events (decryptMessages info node c)) = [node] <->
   result (decryptMessages info node c) = Done tt /\
   dispatches (events (decryptMessages info node c)) <> [] /\
   retry_count (final (decryptMessages info node c)) (retry_id node)
     = retry_count c (retry_id node)) /\
  (acks (events (decryptMessages info node c)) = [node] ->
   retry_units (events (decryptMessages info node c)) = [] /\
   (exists pre, events (decryptMessages info node c) = pre ++ [EAck node]) /\
   last (sends (events (decryptMessages info node c)))
     = Some {| Tag := "receipt";
               Attrs := receiptAttrs (session (final (decryptMessages info node c))) info;
               Content := CNil |}).
Proof.
  destruct (len (GetChildrenByTag node "unavailable") =? len (GetChildren node))%Z eqn:Et.
  - (* all unavailable: the retry *)
    assert (Hrun : decryptMessages info node c = sendRetryReceipt node c)
      by (unfold decryptMessages; now rewrite Et).
    rewrite Hrun.
    destruct (sendRetryReceipt_effects node c) as (_ & _ & _ & _ & Ha & _).
    destruct (retry_count_after node c) as [Hn _].
    rewrite Ha, Hn. split; [now left|]. split; [split|].
    + discriminate.
    + intros (_ & _ & H). lia.
    + discriminate.
  - rewrite (decryptMessages_run info node c Et).
    pose proof (decryptLoop_invariant info node (GetChildren node) false c) as Hinv.
    unfold loop_invariant in Hinv. destruct Hinv as (Ha & _ & _ & _ & Hend).
    set (L := decryptLoop info node (GetChildren node) false c) in *.
    destruct (result L) as [[[|]|]|p]; cbn [result final events].
    + (* the loop went through with something handled *)
      destruct Hend as (Hs & Hru & Hh).
      destruct (sendMessageReceipt_obs info (final L))
        as (_ & _ & HsM & HruM & HdiM & HaM & _).
      assert (Hdis : dispatches (events L) <> []).
      { destruct Hh as [Hh _]. destruct (Hh eq_refl) as [H|H]; [discriminate|exact H]. }
      apply same_but_store_fields in Hs. destruct Hs as (_ & Hm & _).
      rewrite !acks_app, !dispatches_app, !retry_units_app, !sends_app, Ha, HaM, HdiM,
        Hru, HruM, HsM.
      cbn [app acks dispatches retry_units sends omap list_omap List.filter].
      rewrite !app_nil_r.
      split; [now right|]. split; [split|].
      * intros _. split; [reflexivity|]. split; [exact Hdis|].
        unfold retry_count. now rewrite Hm.
      * reflexivity.
      * intros _. split; [reflexivity|]. split.
        -- exists (ELog (LogDecrypting (len (GetChildren node)) info)
                   :: events L ++ events (sendMessageReceipt info (final L))).
           cbn [app]. now rewrite <- app_assoc.
        -- apply last_snoc.
    + (* the loop went through with nothing handled *)
      destruct Hend as (Hs & Hru & Hh).
      assert (Hdis : dispatches (events L) = []).
      { destruct (dispatches (events L)) eqn:E; [reflexivity|].
        destruct Hh as [_ Hh]. now assert (false = true) by (apply Hh; right; discriminate). }
      rewrite !acks_app, !dispatches_app, Ha, Hdis. cbn [app acks dispatches omap list_omap].
      split; [now left|]. split; [split|].
      * discriminate.
      * intros (_ & H & _). now destruct H.
      * discriminate.
    + (* the loop returned after a retry *)
      destruct Hend as (c1 & Hs & Hf & _).
      apply same_but_store_fields in Hs. destruct Hs as (_ & Hm & _).
      destruct (retry_count_after node c1) as [Hn _].
      assert (Hrc : retry_count c1 (retry_id node) = retry_count c (retry_id node))
        by (unfold retry_count; now rewrite Hm).
      rewrite !acks_app, Ha, Hf, Hn, Hrc. cbn [app acks omap list_omap].
      split; [now left|]. split; [split|].
      * discriminate.
      * intros (_ & _ & H). lia.
      * discriminate.
    + (* a panic *)
      rewrite !acks_app, Ha. cbn [app acks omap list_omap].
      split; [now left|]. split; [split|].
      * discriminate.
      * intros (H & _). discriminate.
      * discriminate.
Qed.

(** X21.  Counting.  In the processing of a unit every dispatch follows
    a decrypt attempt of its own, there is at most one decrypt attempt per
    sub-unit tagged [enc], and every message dispatched carries the info
    of the unit. *)
Theorem unit_counts (info : MessageInfo) (node : Node) (c : Client) :
  (length (dispatches (events (decryptMessages info node c)))
   <= length (decrypt_attempts (events (decryptMessages info node c))))%nat /\
  (length (decrypt_attempts (events (decryptMessages info node c)))
   <= length (GetChildrenByTag node "enc"))%nat /\
  Forall (fun m => Info m = info) (dispatches (events (decryptMessages info node c))).
Proof.
  destruct (len (GetChildrenByTag node "unavailable") =? len (GetChildren node))%Z eqn:Et.
  - assert (Hrun : decryptMessages info node c = sendRetryReceipt node c)
      by (unfold decryptMessages; now rewrite Et).
    rewrite Hrun.
    destruct (sendRetryReceipt_effects node c) as (_ & _ & _ & Hd & _ & Hc).
    rewrite Hd, Hc. cbn. split; [lia|]. split; [lia|constructor].
  - rewrite (decryptMessages_run info node c Et).
    pose proof (decryptLoop_invariant info node (GetChildren node) false c) as Hinv.
    unfold loop_invariant in Hinv. destruct Hinv as (_ & Hle1 & Hle2 & Hfa & _).
    fold (GetChildrenByTag node "enc") in Hle2.
    set (L := decryptLoop info node (GetChildren node) false c) in *.
    destruct (sendMessageReceipt_obs info (final L)) as (_ & _ & _ & _ & HdiM & _ & HatM).
    destruct (result L) as [[[|]|]|p]; cbn [result final events];
      rewrite !dispatches_app, !decrypt_attempts_app, ?HdiM, ?HatM;
      cbn [app dispatches decrypt_attempts omap list_omap];
      rewrite ?app_nil_r; now repeat split.
Qed.

(** *** Sub-units the loop passes over *)

(** The run of [ret a ;; k]. *)
Lemma bind_ret {A B} (a : A) (k : A -> M B) (c : Client) : bind (ret a) k c = k a c.
Proof. unfold bind, ret. cbn. now destruct (k a c). Qed.

(** X22.  Only [enc] sub-units count.  The loop over the sub-units of a
    unit runs exactly as the loop over those tagged [enc]: children with
    any other tag are passed over without a trace. *)
Theorem loop_skips_other_tags (info : MessageInfo) (node : Node) (l : list Node)
    (handled : bool) (c : Client) :
  decryptLoop info node l handled c
  = decryptLoop info node (filter (fun ch => Tag ch = "enc") l) handled c.
Proof.
  revert handled c. induction l as [|child l IH]; intros handled c; [reflexivity|].
  destruct (String.eqb (Tag child) "enc") eqn:E.
  - apply String.eqb_eq in E. rewrite filter_cons_True by assumption.
    cbn [decryptLoop]. unfold bind.
    destruct (result (decryptChild info node child handled c)) as [[h|]|p];
      [|reflexivity|reflexivity].
    now rewrite IH.
  - assert (Hne : Tag child <> "enc") by (now apply String.eqb_neq).
    rewrite filter_cons_False by assumption. cbn [decryptLoop].
    assert (Hchild : decryptChild info node child handled = ret (Next handled))
      by (unfold decryptChild; now rewrite E).
    rewrite Hchild, bind_ret. apply IH.
Qed.

(** X23.  Sub-units passed over.  An [enc] sub-unit whose [type]
    attribute is missing or not a string is skipped without a trace, and
    an [skmsg] sub-unit of a unit that has no chat (a direct message) is
    logged as unhandled; in both cases nothing is decrypted, nothing is
    sent, and the loop goes on with the client and the flag unchanged. *)
Theorem untyped_and_stray_sub_units (info : MessageInfo) (node child : Node)
    (handled : bool) (c : Client) :
  Tag child = "enc" ->
  (attr_string (Attrs child) "type" = None ->
     decryptChild info node child handled c = mkRun (Done (Next handled)) c []) /\
  (attr_string (Attrs child) "type" = Some "skmsg" -> Chat info = None ->
     decryptChild info node child handled c
       = mkRun (Done (Next handled)) c [ELog (LogUnhandled "skmsg" info)]).
Proof.
  intros Htag. unfold decryptChild. rewrite Htag. cbn [String.eqb Ascii.eqb Bool.eqb negb].
  split.
  - intros ->. reflexivity.
  - intros -> ->. reflexivity.
Qed.

(** X24.  A payload that does not decode.  When the decrypt call of a
    sub-unit succeeds but the plaintext does not unmarshal, the iteration
    logs the error and goes on with the flag unchanged: nothing is
    dispatched, nothing is sent and no retry is counted. *)
Theorem undecodable_payload_skipped (info : MessageInfo) (node child : Node)
    (handled : bool) (d : M (bytes + go_error)) (c : Client) (plain : bytes) :
  decrypt_call info child = Some d ->
  result (d c) = Done (inl plain) ->
  Unmarshal plain = None ->
  decryptChild info node child handled c
    = mkRun (Done (Next handled)) (final (d c))
            (events (d c) ++ [ELog (LogUnmarshalError info)]) /\
  dispatches (events (decryptChild info node child handled c)) = [] /\
  sends (events (decryptChild info node child handled c)) = sends (events (d c)) /\
  messageRetries (final (decryptChild info node child handled c)) = messageRetries c.
Proof.
  intros Hd Hr Hu.
  assert (Hrun : decryptChild info node child handled c
                 = mkRun (Done (Next handled)) (final (d c))
                         (events (d c) ++ [ELog (LogUnmarshalError info)])).
  { rewrite (decryptChild_call info node child handled d Hd).
    rewrite (bind_done _ _ c _ Hr). unfold handleDecryptResult. rewrite Hu.
    rewrite (bind_done _ _ (final (d c)) tt) by reflexivity.
    reflexivity. }
  rewrite Hrun. cbn [result final events].
  destruct (decrypt_call_effects info child d c Hd) as (Hs & _ & _ & Hdi & _).
  apply same_but_store_fields in Hs. destruct Hs as (_ & Hm & _).
  rewrite dispatches_app, sends_app, Hdi. cbn. rewrite app_nil_r. now repeat split.
Qed.

(** *** Panics *)

(** The events of a decrypt function are its decrypt attempt and nothing
    else. *)
Lemma decryptDM_events (child : Node) (from : FullJID) (isPreKey : bool) (c : Client) :
  events (decryptDM child from isPreKey c)
  = [EDecrypt (if isPreKey then "pkmsg" else "msg") (content_bytes child)].
Proof.
  unfold decryptDM, bind, emit, get, set_store, ret. cbn [result final events].
  destruct isPreKey.
  - destruct (NewPreKeySignalMessageFromBytes (content_bytes child)) as [m|];
      [|reflexivity].
    cbn [result final events].
    destruct (DecryptMessageReturnKey (Store (session c)) from m) as [[plain|] st];
      cbn [result final events]; [|reflexivity].
    now destruct (unpadMessage (CheckPadding c) plain).
  - destruct (NewSignalMessageFromBytes (content_bytes child)) as [m|]; [|reflexivity].
    cbn [result final events].
    destruct (Decrypt (Store (session c)) from m) as [[plain|] st];
      cbn [result final events]; [|reflexivity].
    now destruct (unpadMessage (CheckPadding c) plain).
Qed.

Lemma decryptGroupMsg_events (child : Node) (from chat : FullJID) (c : Client) :
  events (decryptGroupMsg child from chat c) = [EDecrypt "skmsg" (content_bytes child)].
Proof.
  unfold decryptGroupMsg, bind, emit, get, set_store, ret. cbn [result final events].
  destruct (NewSenderKeyMessageFromBytes (content_bytes child)) as [m|]; [|reflexivity].
  cbn [result final events].
  destruct (GroupDecrypt (Store (session c)) chat from m) as [[plain|] st];
    cbn [result final events]; [|reflexivity].
  now destruct (unpadMessage (CheckPadding c) plain).
Qed.

Lemma decrypt_call_sends (info : MessageInfo) (child : Node)
    (d : M (bytes + go_error)) (c : Client) :
  decrypt_call info child = Some d -> sends (events (d c)) = [].
Proof.
  unfold decrypt_call. intros H.
  destruct (String.eqb (Tag child) "enc"); [|discriminate].
  destruct (attr_string (Attrs child) "type") as [encType|]; [|discriminate].
  destruct (String.eqb encType "pkmsg" || String.eqb encType "msg").
  - inversion H; subst d. now rewrite decryptDM_events.
  - destruct (Chat info) as [chat|]; [|discriminate].
    destruct (String.eqb encType "skmsg"); [|discriminate].
    inversion H; subst d. now rewrite decryptGroupMsg_events.
Qed.

Lemma unpadMessage_empty_index (cp : bool) : unpadMessage cp [] = Panics IndexOutOfRange.
Proof. now destruct cp. Qed.

(** X25.  An empty plaintext.  When a cipher returns a plaintext of no
    bytes, each of the three decrypt paths panics in [unpadMessage] with
    an index out of range, with the padding check on or off, after the
    Signal store has taken the state the cipher left. *)
Theorem empty_plaintext_panics (child : Node) (from chat : FullJID) (c : Client) :
  (forall m st,
     NewPreKeySignalMessageFromBytes (content_bytes child) = Some m ->
     DecryptMessageReturnKey (Store (session c)) from m = (Some [], st) ->
     result (decryptDM child from true c) = Crashed IndexOutOfRange /\
     Store (session (final (decryptDM child from true c))) = st) /\
  (forall m st,
     NewSignalMessageFromBytes (content_bytes child) = Some m ->
     Decrypt (Store (session c)) from m = (Some [], st) ->
     result (decryptDM child from false c) = Crashed IndexOutOfRange /\
     Store (session (final (decryptDM child from false c))) = st) /\
  (forall m st,
     NewSenderKeyMessageFromBytes (content_bytes child) = Some m ->
     GroupDecrypt (Store (session c)) chat from m = (Some [], st) ->
     result (decryptGroupMsg child from chat c) = Crashed IndexOutOfRange /\
     Store (session (final (decryptGroupMsg child from chat c))) = st).
Proof.
  split; [|split]; intros m st Hp Hd.
  - unfold decryptDM, bind, emit, get, set_store, ret. cbn [result final events].
    rewrite Hp. cbn [result final events]. rewrite Hd. cbn [result final events].
    rewrite unpadMessage_empty_index. now split.
  - unfold decryptDM, bind, emit, get, set_store, ret. cbn [result final events].
    rewrite Hp. cbn [result final events]. rewrite Hd. cbn [result final events].
    rewrite unpadMessage_empty_index. now split.
  - unfold decryptGroupMsg, bind, emit, get, set_store, ret. cbn [result final events].
    rewrite Hp. cbn [result final events]. rewrite Hd. cbn [result final events].
    rewrite unpadMessage_empty_index. now split.
Qed.

(** X26.  A panic aborts the unit without an answer.  When the decrypt
    call of the first sub-unit of a unit panics, [decryptMessages] panics
    with it: nothing has been sent, dispatched or acknowledged, no retry
    is counted, and the later sub-units are never tried. *)
Theorem panic_aborts_unit (info : MessageInfo) (node child : Node) (rest : list Node)
    (d : M (bytes + go_error)) (p : panic) (c : Client) :
  GetChildren node = child :: rest ->
  decrypt_call info child = Some d ->
  result (d c) = Crashed p ->
  result (decryptMessages info node c) = Crashed p /\
  sends (events (decryptMessages info node c)) = [] /\
  dispatches (events (decryptMessages info node c)) = [] /\
  acks (events (decryptMessages info node c)) = [] /\
  length (decrypt_attempts (events (decryptMessages info node c))) = 1%nat /\
  messageRetries (final (decryptMessages info node c)) = messageRetries c.
Proof.
  intros Hk Hd Hr.
  assert (Hne : (len (GetChildrenByTag node "unavailable") =? len (GetChildren node))%Z
                = false).
  { apply Z.eqb_neq. unfold GetChildrenByTag, len.
    assert (Hlt : (length (filter (fun c0 => Tag c0 = "unavailable") (GetChildren node))
                   < length (GetChildren node))%nat).
    { apply filter_shorter. rewrite Hk. intros Hall. inversion Hall as [|? ? Hs1 _].
      rewrite (decrypt_call_enc info child d Hd) in Hs1. discriminate. }
    lia. }
  assert (Hloop : decryptLoop info node (GetChildren node) false c
                  = mkRun (Crashed p) (final (d c)) (events (d c))).
  { rewrite Hk. cbn [decryptLoop].
    assert (Hchild : decryptChild info node child false c
                     = mkRun (Crashed p) (final (d c)) (events (d c))).
    { rewrite (decryptChild_call info node child false d Hd).
      now rewrite (bind_crashed _ _ c p Hr). }
    rewrite (bind_crashed _ _ c p) by (now rewrite Hchild).
    now rewrite Hchild. }
  rewrite (decryptMessages_run info node c Hne), Hloop. cbn [result final events].
  destruct (decrypt_call_effects info child d c Hd) as (Hs & _ & Ha & Hdi & Hat).
  apply same_but_store_fields in Hs. destruct Hs as (_ & Hm & _).
  rewrite sends_app, dispatches_app, acks_app, decrypt_attempts_app,
    (decrypt_call_sends info child d c Hd), Hdi, Ha.
  cbn [app sends dispatches acks decrypt_attempts omap list_omap].
  now repeat split.
Qed.

End UnitsMore.

(** ** Further runs on concrete units *)

(** A sender-key distribution arriving in a group: it is processed and
    the message is dispatched. *)
Lemma handleDecryptedMessage_dispatches_witness :
  result (handleDecryptedMessage (Fake.info_of (Fake.group_unit_of []))
            Fake.skdm_msg (Fake.client None ∅)) = Done tt /\
  dispatches (events (handleDecryptedMessage (Fake.info_of (Fake.group_unit_of []))
                        Fake.skdm_msg (Fake.client None ∅)))
    = [{| Info := Fake.info_of (Fake.group_unit_of []); Msg := Fake.skdm_msg |}].
Proof.
  assert (Hchat : GetSenderKeyDistributionMessage Fake.skdm_msg = None \/
                  Chat (Fake.info_of (Fake.group_unit_of [])) <> None)
    by (right; vm_compute; intros H; discriminate H).
  destruct (handleDecryptedMessage_dispatches (Fake.info_of (Fake.group_unit_of []))
              Fake.skdm_msg (Fake.client None ∅) Hchat)
    as (Hres & (pre & Hev & Hpre) & _).
  split; [exact Hres|].
  rewrite Hev, dispatches_app, Hpre. reflexivity.
Defined.

(** The group unit with id [G]: the retry unit and the delivery receipt
    are both addressed to the group and name [alice] as participant. *)
Lemma receipts_answer_the_sender_witness :
  parseMessageInfo "g.us" (Fake.group_unit_of [])
    = inl (Fake.info_of (Fake.group_unit_of [])) /\
  retryAttrs (Fake.group_unit_of []) (retry_id (Fake.group_unit_of [])) !! "to"
    = Some (AJID Fake.group) /\
  receiptAttrs (session (Fake.client None ∅)) (Fake.info_of (Fake.group_unit_of [])) !! "to"
    = Some (AJID Fake.group).
Proof.
  assert (Hparse : parseMessageInfo "g.us" (Fake.group_unit_of [])
                   = inl (Fake.info_of (Fake.group_unit_of [])))
    by reflexivity.
  destruct (receipts_answer_the_sender "g.us" (Fake.group_unit_of [])
              (Fake.info_of (Fake.group_unit_of [])) (session (Fake.client None ∅)) Hparse)
    as (_ & Hretry & Hreceipt & _).
  split; [exact Hparse|]. split; [exact Hretry|exact Hreceipt].
Defined.

(** An [enc] sub-unit without a [type] attribute. *)
Lemma untyped_and_stray_sub_units_witness :
  decryptChild (Ext:=Fake.ext) (Fake.info_of Fake.batch) Fake.batch
    {| Tag := "enc"; Attrs := ∅; Content := CNil |} false (Fake.client None ∅)
    = mkRun (Done (Next false)) (Fake.client None ∅) [].
Proof.
  destruct (untyped_and_stray_sub_units (Ext:=Fake.ext) (Fake.info_of Fake.batch) Fake.batch
              {| Tag := "enc"; Attrs := ∅; Content := CNil |} false (Fake.client None ∅)
              eq_refl)
    as [Hnone _].
  apply Hnone. reflexivity.
Defined.

(** A [msg] sub-unit whose plaintext is the single padding byte [01]: it
    unpads to the empty payload, which does not decode. *)
Lemma undecodable_payload_skipped_witness :
  result (decryptDM (Fake.enc "msg" [Byte.x01]) Fake.alice false (Fake.client None ∅))
    = Done (inl []) /\
  result (decryptChild (Fake.info_of (Fake.unit_of [Fake.enc "msg" [Byte.x01]]))
            (Fake.unit_of [Fake.enc "msg" [Byte.x01]]) (Fake.enc "msg" [Byte.x01]) false
            (Fake.client None ∅))
    = Done (Next false) /\
  dispatches (events (decryptChild (Fake.info_of (Fake.unit_of [Fake.enc "msg" [Byte.x01]]))
                        (Fake.unit_of [Fake.enc "msg" [Byte.x01]])
                        (Fake.enc "msg" [Byte.x01]) false (Fake.client None ∅))) = [].
Proof.
  destruct (undecodable_payload_skipped
              (Fake.info_of (Fake.unit_of [Fake.enc "msg" [Byte.x01]]))
              (Fake.unit_of [Fake.enc "msg" [Byte.x01]]) (Fake.enc "msg" [Byte.x01]) false
              (decryptDM (Fake.enc "msg" [Byte.x01]) Fake.alice false)
              (Fake.client None ∅) [] eq_refl eq_refl eq_refl)
    as (Hrun & Hd & _).
  split; [reflexivity|]. split; [now rewrite Hrun|exact Hd].
Defined.

(** A [skmsg] sub-unit in a group, on ciphers that return the empty
    plaintext. *)
Lemma empty_plaintext_panics_witness :
  GroupDecrypt (Store (session Blank.client)) Fake.group Fake.alice
    ([Byte.x07] : @SenderKeyMessage Blank.ext) = (Some [], 100%nat) /\
  result (decryptGroupMsg (Fake.enc "skmsg" [Byte.x07]) Fake.alice Fake.group Blank.client)
    = Crashed IndexOutOfRange.
Proof.
  split; [reflexivity|].
  destruct (empty_plaintext_panics (Fake.enc "skmsg" [Byte.x07]) Fake.alice Fake.group
              Blank.client)
    as (_ & _ & Hgroup).
  apply (Hgroup [Byte.x07] 100%nat eq_refl eq_refl).
Defined.

(** A unit of two [msg] sub-units on ciphers that return the empty
    plaintext: the first panics, and nothing is sent. *)
Lemma panic_aborts_unit_witness :
  result (decryptMessages (Fake.info_of Fake.batch) Fake.batch Blank.client)
    = Crashed IndexOutOfRange /\
  sends (events (decryptMessages (Fake.info_of Fake.batch) Fake.batch Blank.client)) = [] /\
  length (decrypt_attempts
            (events (decryptMessages (Fake.info_of Fake.batch) Fake.batch Blank.client)))
    = 1%nat.
Proof.
  destruct (panic_aborts_unit (Fake.info_of Fake.batch) Fake.batch Fake.sub1
              [Fake.sub2; Fake.sub3] (decryptDM Fake.sub1 Fake.alice false)
              IndexOutOfRange Blank.client eq_refl eq_refl eq_refl)
    as (Hres & Hs & _ & _ & Hat & _).
  split; [exact Hres|]. split; [exact Hs|exact Hat].
Defined.
